(** * ApplicationCommand: option transcoder, schema equality, invocation encoder

    A shallow embedding of [src/structures/ApplicationCommand.js]
    (discord.js-selfbot-v13): [transformOption], [equals], [optionsEqual],
    [_optionEquals], [sendSlashCommand] and [sendContextMenu], followed by
    the properties the specification states about them.

    Conventions of the embedding.
    - A JavaScript property that is absent and one that holds [undefined]
      read the same ([o.p] is [undefined]); an optional property is an
      [option], [None] standing for both.  The only place where the source
      tells them apart is the ['p' in command] tests of [equals]; there
      [None] is "key absent".
    - Property types are the ones of the JSDoc typedefs of the source
      ([ApplicationCommandOptionData], [ApplicationCommandOptionChoice],
      [ApplicationCommandData]): names and ids are strings, flags are
      booleans, a type is a member name of its enumeration or an integer
      code.  Tokens and choice values are primitive values.
    - JavaScript numbers are kept abstract (class [JsNumber]): the code only
      compares them, tests their truthiness and obtains them from strings
      with [Number(...)].  The theorems hold for every number model; the
      closed examples run on the model [ExampleNumber].
    - The token array and the command are objects the caller shares with
      [sendSlashCommand]: the encoder runs in a state-and-exception monad
      over the heap that holds them.  A request is modelled by the body it
      posts. *)

From stdpp Require Import base decidable option list strings gmap.
From Stdlib Require Import ZArith Lia.

Local Open Scope Z_scope.
Local Open Scope string_scope.
Local Open Scope list_scope.
Local Set Warnings "-register-all".

(** ** The host language *)

(** Numbers of the host.  [number_eqb] is [===] on two numbers,
    [number_truthy] is [ToBoolean], [StringToNumber] is [Number(s)] for a
    string [s]. *)
Class JsNumber := {
  number : Type;
  number_eqb : number → number → bool;
  number_truthy : number → bool;
  StringToNumber : string → number;
}.

Section Host.
Context `{JsNumber}.

(** Primitive values: what a token, a choice value or an emitted value can
    be. *)
Inductive JsVal :=
| JUndefined
| JNull
| JBool (b : bool)
| JNum (n : number)
| JStr (s : string).

(** [typeof v === 'string'] *)
Definition is_string (v : JsVal) : bool :=
  match v with JStr _ => true | _ => false end.

(** [typeof v], used in the message of the token type error. *)
Definition typeof (v : JsVal) : string :=
  match v with
  | JUndefined => "undefined"
  | JNull => "object"
  | JBool _ => "boolean"
  | JNum _ => "number"
  | JStr _ => "string"
  end.

(** [ToBoolean]: the test of [if (v)], [!v] and [v || w]. *)
Definition truthy (v : JsVal) : bool :=
  match v with
  | JUndefined | JNull => false
  | JBool b => b
  | JNum n => number_truthy n
  | JStr s => negb (String.eqb s "")
  end.

(** [a || b] *)
Definition js_or (a b : JsVal) : JsVal := if truthy a then a else b.

(** [ToNumber] of a boolean: [1] and [0], which are also [Number("1")] and
    [Number("0")]. *)
Definition BooleanToNumber (b : bool) : number :=
  StringToNumber (if b then "1" else "0").

(** [v == s] for a string [s] (IsLooselyEqual, one side a string): strings
    compare as strings, a number compares with [Number(s)], a boolean is
    first turned into a number, [undefined] and [null] equal no string. *)
Definition loose_eq_string (v : JsVal) (s : string) : bool :=
  match v with
  | JStr t => String.eqb t s
  | JNum n => number_eqb n (StringToNumber s)
  | JBool b => number_eqb (BooleanToNumber b) (StringToNumber s)
  | JUndefined | JNull => false
  end.

(** [a === b] on primitives. *)
Definition strict_eq (a b : JsVal) : bool :=
  match a, b with
  | JUndefined, JUndefined => true
  | JNull, JNull => true
  | JBool x, JBool y => Bool.eqb x y
  | JNum x, JNum y => number_eqb x y
  | JStr x, JStr y => String.eqb x y
  | _, _ => false
  end.

End Host.

(** ** Enumerations of [util/Constants] *)

(** A property that holds either the symbolic name of an enumeration
    member, or its integer code, or [undefined]. *)
Inductive tag (A : Type) :=
| Name (a : A)
| Code (n : Z)
| Undef.
Arguments Name {A} a.
Arguments Code {A} n.
Arguments Undef {A}.

Global Instance tag_eq_dec {A} `{EqDecision A} : EqDecision (tag A).
Proof. solve_decision. Defined.

(** Modelled from the spec: the tables built by [createEnum] in
    [util/Constants] ([ApplicationCommandTypes],
    [ApplicationCommandOptionTypes], [ChannelTypes]), which
    [ApplicationCommand.js] requires and which are absent from the sources
    at hand.  Spec 4.1: a type tag is an integer code on the wire and a
    symbolic name in the model, and one mapping serves both directions.  A
    table is a two-way object: indexed by a name it gives the code, indexed
    by a code it gives the name, and anything else gives [undefined]. *)
Class JsEnum (A : Type) := {
  enum_eq_dec :: EqDecision A;
  code : A → Z;
  of_code : Z → option A;
}.

(** [Table[k]] *)
Definition enum_get {A} `{JsEnum A} (k : tag A) : tag A :=
  match k with
  | Name a => Code (code a)
  | Code n => match of_code n with Some a => Name a | None => Undef end
  | Undef => Undef
  end.

(** [typeof t === 'string'], [typeof t === 'number'] *)
Definition is_name {A} (t : tag A) : bool :=
  match t with Name _ => true | _ => false end.
Definition is_code {A} (t : tag A) : bool :=
  match t with Code _ => true | _ => false end.

(** [t == 'NAME'] and [t === 'NAME'] for a member name: a name equals
    itself only; a code never equals a member name, whose [Number(...)] is
    [NaN]. *)
Definition tag_is {A} `{EqDecision A} (t : tag A) (a : A) : bool :=
  match t with Name b => bool_decide (b = a) | _ => false end.

Module CommandType.
(** Modelled from the spec: the members of [ApplicationCommandTypes]
    (spec 3: chat-input, user-target, message-target).  The spec gives no
    integer codes; they are the codes 1, 2, 3 of the wire format, documented
    at the page the source links to as [APIApplicationCommand]. *)
Inductive t := CHAT_INPUT | USER | MESSAGE.

Global Instance eq_dec : EqDecision t.
Proof. solve_decision. Defined.

(** Modelled from the spec: [ApplicationCommandTypes[name]]. *)
Definition to_code (k : t) : Z :=
  match k with CHAT_INPUT => 1 | USER => 2 | MESSAGE => 3 end.

(** Modelled from the spec: [ApplicationCommandTypes[code]]. *)
Definition from_code (n : Z) : option t :=
  match n with
  | 1 => Some CHAT_INPUT | 2 => Some USER | 3 => Some MESSAGE
  | _ => None
  end.
End CommandType.

(** Modelled from the spec: the table [ApplicationCommandTypes] of
    [util/Constants]. *)
Global Instance ApplicationCommandTypes : JsEnum CommandType.t :=
  {| code := CommandType.to_code; of_code := CommandType.from_code |}.

Module OptionType.
(** Modelled from the spec: the members of
    [ApplicationCommandOptionTypes] (spec 3: subcommand,
    subcommand-group, string, integer, boolean, user, channel, role,
    mentionable, number, attachment), with the codes 1 to 11 of the wire
    format, documented at the page the source links to as
    [APIApplicationCommandOption]. *)
Inductive t :=
| SUB_COMMAND | SUB_COMMAND_GROUP | STRING | INTEGER | BOOLEAN | USER
| CHANNEL | ROLE | MENTIONABLE | NUMBER | ATTACHMENT.

Global Instance eq_dec : EqDecision t.
Proof. solve_decision. Defined.

(** Modelled from the spec: [ApplicationCommandOptionTypes[name]]. *)
Definition to_code (k : t) : Z :=
  match k with
  | SUB_COMMAND => 1 | SUB_COMMAND_GROUP => 2 | STRING => 3
  | INTEGER => 4 | BOOLEAN => 5 | USER => 6 | CHANNEL => 7 | ROLE => 8
  | MENTIONABLE => 9 | NUMBER => 10 | ATTACHMENT => 11
  end.

(** Modelled from the spec: [ApplicationCommandOptionTypes[code]]. *)
Definition from_code (n : Z) : option t :=
  match n with
  | 1 => Some SUB_COMMAND | 2 => Some SUB_COMMAND_GROUP | 3 => Some STRING
  | 4 => Some INTEGER | 5 => Some BOOLEAN | 6 => Some USER
  | 7 => Some CHANNEL | 8 => Some ROLE | 9 => Some MENTIONABLE
  | 10 => Some NUMBER | 11 => Some ATTACHMENT
  | _ => None
  end.
End OptionType.

(** Modelled from the spec: the table [ApplicationCommandOptionTypes] of
    [util/Constants]. *)
Global Instance ApplicationCommandOptionTypes : JsEnum OptionType.t :=
  {| code := OptionType.to_code; of_code := OptionType.from_code |}.

Module ChannelType.
(** Modelled from the spec: the members of [ChannelTypes] (spec 4.1:
    channel-type filters go through an integer/symbolic mapping of the
    same kind as the type tags), with the codes of the channel object of
    the wire format; the codes 7, 8 and 9 name nothing. *)
Inductive t :=
| GUILD_TEXT | DM | GUILD_VOICE | GROUP_DM | GUILD_CATEGORY | GUILD_NEWS
| GUILD_STORE | GUILD_NEWS_THREAD | GUILD_PUBLIC_THREAD
| GUILD_PRIVATE_THREAD | GUILD_STAGE_VOICE.

Global Instance eq_dec : EqDecision t.
Proof. solve_decision. Defined.

(** Modelled from the spec: [ChannelTypes[name]]. *)
Definition to_code (k : t) : Z :=
  match k with
  | GUILD_TEXT => 0 | DM => 1 | GUILD_VOICE => 2 | GROUP_DM => 3
  | GUILD_CATEGORY => 4 | GUILD_NEWS => 5 | GUILD_STORE => 6
  | GUILD_NEWS_THREAD => 10 | GUILD_PUBLIC_THREAD => 11
  | GUILD_PRIVATE_THREAD => 12 | GUILD_STAGE_VOICE => 13
  end.

(** Modelled from the spec: [ChannelTypes[code]]. *)
Definition from_code (n : Z) : option t :=
  match n with
  | 0 => Some GUILD_TEXT | 1 => Some DM | 2 => Some GUILD_VOICE
  | 3 => Some GROUP_DM | 4 => Some GUILD_CATEGORY | 5 => Some GUILD_NEWS
  | 6 => Some GUILD_STORE | 10 => Some GUILD_NEWS_THREAD
  | 11 => Some GUILD_PUBLIC_THREAD | 12 => Some GUILD_PRIVATE_THREAD
  | 13 => Some GUILD_STAGE_VOICE
  | _ => None
  end.
End ChannelType.

(** Modelled from the spec: the table [ChannelTypes] of [util/Constants]. *)
Global Instance ChannelTypes : JsEnum ChannelType.t :=
  {| code := ChannelType.to_code; of_code := ChannelType.from_code |}.

(** ** Data *)

(** [a ?? b] on optional properties. *)
Definition nullish {A} (a b : option A) : option A :=
  match a with Some x => Some x | None => b end.

(** [a?.length] *)
Definition opt_length {A} (a : option (list A)) : option nat :=
  match a with Some l => Some (length l) | None => None end.

(** [new Map(entries)]: entries are set from left to right, a later entry
    replaces an earlier one with the same key. *)
Definition js_Map {V} (entries : list (string * V)) : gmap string V :=
  foldl (λ m kv, <[kv.1 := kv.2]> m) ∅ entries.

Section Every.
Context {A : Type} (f : A → nat → bool).

(** [array.every((x, index) => f(x, index))], from position [index]. *)
Fixpoint every_from (index : nat) (array : list A) : bool :=
  match array with
  | [] => true
  | x :: rest => if f x index then every_from (S index) rest else false
  end.
End Every.

(** [array.every(f)] *)
Definition every {A} (f : A → nat → bool) (array : list A) : bool :=
  every_from f 0 array.

Section Model.
Context `{JsNumber}.

(** [ApplicationCommandOptionChoice]: [{ name, value }], the value a
    string or a number. *)
Record Choice := {
  choice_name : string;
  choice_value : JsVal;
}.

(** [ApplicationCommandOptionData], [ApplicationCommandOption] and
    [APIApplicationCommandOption] in one type: the functions below read
    both spellings of the channel-type and bound properties. *)
Inductive OptionData := mkOption {
  opt_type : tag OptionType.t;
  opt_name : string;
  opt_description : option string;
  opt_required : option bool;
  opt_autocomplete : option bool;
  opt_choices : option (list Choice);
  opt_options : option (list OptionData);
  opt_channelTypes : option (list (tag ChannelType.t));
  opt_channel_types : option (list (tag ChannelType.t));
  opt_minValue : option number;
  opt_min_value : option number;
  opt_maxValue : option number;
  opt_max_value : option number;
}.

(** ** Option transcoder *)

(** [stringType === 'SUB_COMMAND' || stringType === 'SUB_COMMAND_GROUP'],
    also [['SUB_COMMAND', 'SUB_COMMAND_GROUP'].includes(t)]. *)
Definition is_sub (t : tag OptionType.t) : bool :=
  tag_is t OptionType.SUB_COMMAND || tag_is t OptionType.SUB_COMMAND_GROUP.

(** [typeof o.type === 'string' ? o.type : ApplicationCommandOptionTypes[o.type]] *)
Definition string_type {A} `{JsEnum A} (t : tag A) : tag A :=
  if is_name t then t else enum_get t.

(** [sub ? undefined : false], the default of [required]. *)
Definition required_default (stringType : tag OptionType.t) : option bool :=
  if is_sub stringType then None else Some false.

(** [static transformOption(option, received)] *)
Fixpoint transformOption (option : OptionData) (received : bool) : OptionData :=
  let stringType := string_type (opt_type option) in
  {| opt_type :=
       if is_code (opt_type option) && negb received
       then opt_type option
       else enum_get (opt_type option);
     opt_name := opt_name option;
     opt_description := opt_description option;
     opt_required := nullish (opt_required option) (required_default stringType);
     opt_autocomplete := opt_autocomplete option;
     opt_choices := opt_choices option;
     opt_options :=
       match opt_options option with
       | Some os => Some (List.map (λ o, transformOption o received) os)
       | None => None
       end;
     (* the computed key is [channelTypes] when received, [channel_types]
        otherwise; [a ? b : c ?? d] is [a ? b : (c ?? d)] *)
     opt_channelTypes :=
       if received
       then List.map enum_get <$> opt_channel_types option
       else None;
     opt_channel_types :=
       if received
       then None
       else nullish
              (List.map (λ type, if is_name type then enum_get type else type)
                 <$> opt_channelTypes option)
              (opt_channel_types option);
     opt_minValue :=
       if received then nullish (opt_minValue option) (opt_min_value option)
       else None;
     opt_min_value :=
       if received then None
       else nullish (opt_minValue option) (opt_min_value option);
     opt_maxValue :=
       if received then nullish (opt_maxValue option) (opt_max_value option)
       else None;
     opt_max_value :=
       if received then None
       else nullish (opt_maxValue option) (opt_max_value option);
  |}.

(** ** Schema equality engine *)

(** [a !== b] is [negb] of the following, per property type. *)
Definition opt_eqb {A} (eqb : A → A → bool) (a b : option A) : bool :=
  match a, b with
  | None, None => true
  | Some x, Some y => eqb x y
  | _, _ => false
  end.

(** [a === b] on type tags. *)
Definition tag_eqb {A} `{EqDecision A} (a b : tag A) : bool :=
  bool_decide (a = b).

(** The choice loops of [_optionEquals]. *)
Definition choicesEqual (existing option : list Choice)
    (enforceOptionOrder : bool) : bool :=
  if enforceOptionOrder then
    every (λ choice index,
             match option !! index with
             | Some c =>
                 String.eqb (choice_name choice) (choice_name c)
                 && strict_eq (choice_value choice) (choice_value c)
             | None => false (* not reached: the lengths were compared *)
             end) existing
  else
    let newChoices := js_Map (List.map (λ choice, (choice_name choice, choice)) option) in
    forallb (λ choice,
               match newChoices !! choice_name choice with
               | Some foundChoice =>
                   strict_eq (choice_value foundChoice) (choice_value choice)
               | None => false
               end) existing.

(** The channel-type loop of [_optionEquals]. *)
Definition channelTypesIncluded (existing option : list (tag ChannelType.t)) : bool :=
  let newTypes := List.map (λ type, if is_code type then enum_get type else type) option in
  forallb (λ type, bool_decide (type ∈ newTypes)) existing.

(** [static optionsEqual(existing, options, enforceOptionOrder)], over the
    function that compares two options. *)
Definition optionsEqual_with (optionEquals : OptionData → OptionData → bool → bool)
    (existing options : list OptionData) (enforceOptionOrder : bool) : bool :=
  if negb (length existing =? length options)%nat then false
  else if enforceOptionOrder then
    every (λ option index,
             match options !! index with
             | Some o => optionEquals option o enforceOptionOrder
             | None => false (* not reached: the lengths are equal *)
             end) existing
  else
    let newOptions := js_Map (List.map (λ option, (opt_name option, option)) options) in
    forallb (λ option,
               match newOptions !! opt_name option with
               | Some foundOption => optionEquals option foundOption false
               | None => false
               end) existing.

(** [static _optionEquals(existing, option, enforceOptionOrder)].  Past
    the first test the lengths of the lists agree, so that a list present
    on [existing] is present on [option]: the defaults [[]] below are not
    reached. *)
Fixpoint _optionEquals (existing option : OptionData)
    (enforceOptionOrder : bool) {struct existing} : bool :=
  let optionType := string_type (opt_type option) in
  if negb (String.eqb (opt_name option) (opt_name existing))
     || negb (tag_eqb optionType (opt_type existing))
     || negb (opt_eqb String.eqb (opt_description option) (opt_description existing))
     || negb (opt_eqb Bool.eqb (opt_autocomplete option) (opt_autocomplete existing))
     || negb (opt_eqb Bool.eqb
                (nullish (opt_required option) (required_default optionType))
                (opt_required existing))
     || negb (opt_eqb Nat.eqb (opt_length (opt_choices option))
                (opt_length (opt_choices existing)))
     || negb (opt_eqb Nat.eqb (opt_length (opt_options option))
                (opt_length (opt_options existing)))
     || negb (opt_eqb Nat.eqb
                (opt_length (nullish (opt_channelTypes option) (opt_channel_types option)))
                (opt_length (opt_channelTypes existing)))
     || negb (opt_eqb number_eqb
                (nullish (opt_minValue option) (opt_min_value option))
                (opt_minValue existing))
     || negb (opt_eqb number_eqb
                (nullish (opt_maxValue option) (opt_max_value option))
                (opt_maxValue existing))
  then false
  else if match opt_choices existing with
          | Some choices =>
              negb (choicesEqual choices (default [] (opt_choices option))
                      enforceOptionOrder)
          | None => false
          end
  then false
  else if match opt_channelTypes existing with
          | Some channelTypes =>
              negb (channelTypesIncluded channelTypes
                      (default [] (nullish (opt_channelTypes option)
                                     (opt_channel_types option))))
          | None => false
          end
  then false
  else match opt_options existing with
       | Some options =>
           optionsEqual_with _optionEquals options
             (default [] (opt_options option)) enforceOptionOrder
       | None => true
       end.

(** [static optionsEqual(existing, options, enforceOptionOrder)] *)
Definition optionsEqual : list OptionData → list OptionData → bool → bool :=
  optionsEqual_with _optionEquals.

(** ** Commands *)

(** An [ApplicationCommand] instance ([this]): the properties set by the
    constructor and [_patch].  [options] is always an array
    ([this.options ??= []]); the instance never has an [autocomplete]
    property. *)
Record ApplicationCommand := {
  cmd_id : string;
  cmd_applicationId : string;
  cmd_type : tag CommandType.t;
  cmd_name : string;
  cmd_description : option string;
  cmd_options : list OptionData;
  cmd_defaultPermission : option bool;
  cmd_version : option string;
}.

(** The argument of [equals]:
    [ApplicationCommand|ApplicationCommandData|APIApplicationCommand]. *)
Record CommandData := {
  data_id : option string;
  data_type : tag CommandType.t;
  data_name : string;
  data_description : option string;
  data_version : option string;
  data_autocomplete : option bool;
  data_options : option (list OptionData);
  data_defaultPermission : option bool;
  data_default_permission : option bool;
}.

(** An instance passed as the argument of [equals]: the properties [equals]
    reads from it. *)
Definition as_data (c : ApplicationCommand) : CommandData :=
  {| data_id := Some (cmd_id c);
     data_type := cmd_type c;
     data_name := cmd_name c;
     data_description := cmd_description c;
     data_version := cmd_version c;
     data_autocomplete := None;
     data_options := Some (cmd_options c);
     data_defaultPermission := cmd_defaultPermission c;
     data_default_permission := None |}.

(** The data of a command as the server sends it
    ([APIApplicationCommand]), as far as the constructor and [_patch] read
    it. *)
Record APIApplicationCommand := {
  api_id : string;
  api_application_id : string;
  api_type : tag CommandType.t;
  api_name : string;
  api_description : option string;
  api_options : option (list OptionData);
  api_default_permission : option bool;
  api_version : option string;
}.

(** [new ApplicationCommand(client, data, guild, guildId)]: the
    constructor, and [_patch(data)] on the fresh instance. *)
Definition construct (data : APIApplicationCommand) : ApplicationCommand :=
  {| cmd_id := api_id data;
     cmd_applicationId := api_application_id data;
     cmd_type := enum_get (api_type data);
     cmd_name := api_name data;
     cmd_description := api_description data;
     cmd_options :=
       match api_options data with
       | Some options => List.map (λ o, transformOption o true) options
       | None => []
       end;
     cmd_defaultPermission := api_default_permission data;
     cmd_version := api_version data |}.

(** [if (t)] for a type tag: a member name is a non-empty string. *)
Definition tag_truthy {A} (t : tag A) : bool :=
  match t with
  | Name _ => true
  | Code n => negb (n =? 0)%Z
  | Undef => false
  end.

(** [equals(command, enforceOptionOrder = false)] *)
Definition equals (this : ApplicationCommand) (command : CommandData)
    (enforceOptionOrder : bool) : bool :=
  if match data_id command with
     | Some id => negb (String.eqb id "") && negb (String.eqb (cmd_id this) id)
     | None => false
     end
  then false
  else
    let commandType := string_type (data_type command) in
    if negb (String.eqb (data_name command) (cmd_name this))
       || match data_description command with
          | Some d => negb (opt_eqb String.eqb (Some d) (cmd_description this))
          | None => false
          end
       || match data_version command with
          | Some v => negb (opt_eqb String.eqb (Some v) (cmd_version this))
          | None => false
          end
       || match data_autocomplete command with
          | Some a => negb (opt_eqb Bool.eqb (Some a) None) (* this.autocomplete *)
          | None => false
          end
       || (tag_truthy commandType && negb (tag_eqb commandType (cmd_type this)))
       || negb (default 0%nat (opt_length (data_options command))
                =? length (cmd_options this))%nat
       || negb (opt_eqb Bool.eqb
                  (Some (default true
                           (nullish (data_defaultPermission command)
                              (data_default_permission command))))
                  (cmd_defaultPermission this))
    then false
    else match data_options command with
         | Some options => optionsEqual (cmd_options this) options enforceOptionOrder
         | None => true
         end.

(** ** Invocation encoder *)

(** The message and the client the encoders read from. *)
Record Message := {
  msg_id : string;
  msg_guildId : option string;
  msg_channelId : string;
  msg_author_id : string; (* message.author.id *)
}.

Record Client := {
  client_session_id : option string;
}.

(** [{ type, name, value }] *)
Record ValueEntry := {
  entry_type : tag OptionType.t;
  entry_name : string;
  entry_value : JsVal;
}.

(** An element of [data.options]: a value entry, or the
    [{ type, name, options }] node of a subcommand. *)
Inductive OptionEntry :=
| Leaf (e : ValueEntry)
| Node (type : tag OptionType.t) (name : string) (options : list ValueEntry).

(** The body handed to [client.api.interactions.post]. *)
Record CommandPayload := {
  payload_version : option string;
  payload_id : string;
  payload_name : string;
  payload_type : tag CommandType.t;
  payload_options : option (list OptionEntry);
  payload_target_id : option string;
}.

Record InteractionBody := {
  body_type : Z;
  body_application_id : string;
  body_guild_id : option string;
  body_channel_id : string;
  body_session_id : option string;
  body_data : CommandPayload;
}.

(** What a call does when it does not throw: [return false], or post a
    body and [return true]. *)
Inductive SendResult :=
| ReturnedFalse
| Posted (body : InteractionBody).

(** What is thrown.  The text of a message is left out; an invalid choice
    carries the value and the numbered list of choices its message prints
    ([#${i + 1} Name: ${c.name} Value: ${c.value}]). *)
Inductive Exception :=
| TokenTypeError (type_of : string)  (* Expected option to be a String, got ... *)
| UndefinedTypeError (property : string) (* reading a property of undefined *)
| InvalidChoiceError (value : string) (choices : list (nat * string * JsVal))
| RequiredMissingError. (* Value required missing *)

Inductive Completion (A : Type) :=
| Normal (a : A)
| Throw (e : Exception)
| OutOfFuel.
Arguments Normal {A} a.
Arguments Throw {A} e.
Arguments OutOfFuel {A}.

(** The objects a call of [sendSlashCommand] shares with its caller: the
    array passed as [options] and the command [this]. *)
Record Heap := {
  heap_options : list JsVal;
  heap_this : ApplicationCommand;
}.

(** Computations over the heap that may throw. *)
Definition Eff (A : Type) : Type := Heap → Completion A * Heap.

Definition ret {A} (a : A) : Eff A := λ h, (Normal a, h).
Definition throw {A} (e : Exception) : Eff A := λ h, (Throw e, h).
Definition out_of_fuel {A} : Eff A := λ h, (OutOfFuel, h).
Definition bind {A B} (m : Eff A) (k : A → Eff B) : Eff B :=
  λ h, match m h with
       | (Normal a, h') => k a h'
       | (Throw e, h') => (Throw e, h')
       | (OutOfFuel, h') => (OutOfFuel, h')
       end.

(** [this] *)
Definition get_this : Eff ApplicationCommand := λ h, (Normal (heap_this h), h).
(** [options.length] *)
Definition options_length : Eff nat := λ h, (Normal (length (heap_options h)), h).
(** [options[i]] *)
Definition options_at (i : nat) : Eff JsVal :=
  λ h, (Normal (default JUndefined (heap_options h !! i)), h).
(** [options.shift()] *)
Definition options_shift : Eff unit :=
  λ h, (Normal tt, {| heap_options := tail (heap_options h);
                      heap_this := heap_this h |}).

End Model.

Arguments Normal {_ A} a.
Arguments Throw {_ A} e.
Arguments OutOfFuel {_ A}.

Notation "'let!' x := m 'in' k" := (bind m (λ x, k))
  (at level 10, x name, m at level 100, k at level 200,
   format "'let!'  x  :=  m  'in'  '/' k").

Section Encoder.
Context `{JsNumber}.

(** [choices.find((c) => c.name == value) || choices.find((c) => c.value == value)] *)
Definition find_choice (choices : list Choice) (value : string) : option Choice :=
  match List.find (λ c, String.eqb (choice_name c) value) choices with
  | Some c => Some c
  | None => List.find (λ c, loose_eq_string (choice_value c) value) choices
  end.

(** [choices.map((c, i) => `#${i + 1} Name: ${c.name} Value: ${c.value}\n`)] *)
Definition list_of_choices (choices : list Choice) : list (nat * string * JsVal) :=
  imap (λ i c, (S i, choice_name c, choice_value c)) choices.

(** [type == 'INTEGER' ? Number(value) : type == 'BOOLEAN' ? Boolean(value) : value] *)
Definition coerce (type : tag OptionType.t) (value : string) : JsVal :=
  if tag_is type OptionType.INTEGER then JNum (StringToNumber value)
  else if tag_is type OptionType.BOOLEAN then JBool (truthy (JStr value))
  else JStr value.

(** The part of the loop body that the two branches share: resolve the
    choice of the option for [value], if it has choices, and build
    [{ type, name, value }]. *)
Definition make_data (opt : OptionData) (value : string) : Completion ValueEntry :=
  let data (choice : option Choice) :=
    {| entry_type := enum_get (opt_type opt);
       entry_name := opt_name opt;
       entry_value :=
         js_or (match choice with Some c => choice_value c | None => JUndefined end)
           (coerce (opt_type opt) value) |} in
  match opt_choices opt with
  | Some choices =>
      if (0 <? length choices)%nat then
        match find_choice choices value with
        | Some choice => Normal (data (Some choice))
        | None => Throw (InvalidChoiceError value (list_of_choices choices))
        end
      else Normal (data None)
  | None => Normal (data None)
  end.

Definition lift {A} (c : Completion A) : Eff A := λ h, (c, h).

(** One turn of [for (i; i < options.length; i++) { ... }]: the new
    contents of [optionFormat]; [continue] leaves it as it is. *)
Definition loop_body (subCommandCheck : bool) (subCommand : option OptionData)
    (i : nat) (optionFormat : list ValueEntry) : Eff (list ValueEntry) :=
  let! value := options_at i in
  match value with
  | JStr value =>
      let! this := get_this in
      if negb subCommandCheck && negb (bool_decide (is_Some (cmd_options this !! i)))
      then ret optionFormat
      else if subCommandCheck
              && match subCommand with
                 | Some sc =>
                     match opt_options sc with
                     | Some os => negb (bool_decide (is_Some (os !! i)))
                     | None => false
                     end
                 | None => false
                 end
      then ret optionFormat
      else if negb subCommandCheck then
        match cmd_options this !! i with
        | Some option =>
            let! data := lift (make_data option value) in
            ret (optionFormat ++ [data])%list
        | None => ret optionFormat (* not reached: skipped above *)
        end
      else
        (* First element is sub command and removed *)
        if negb (truthy (JStr value)) then ret optionFormat
        else
          match subCommand with
          | Some sc =>
              match opt_options sc with
              | Some os =>
                  match os !! i with
                  | Some option =>
                      let! data := lift (make_data option value) in
                      ret (optionFormat ++ [data])%list
                  | None => ret optionFormat (* not reached: skipped above *)
                  end
              | None => throw (UndefinedTypeError "options[i]") (* subCommand.options[i] *)
              end
          | None => throw (UndefinedTypeError "options") (* subCommand.options *)
          end
  | other => throw (TokenTypeError (typeof other))
  end.

(** The loop, from [i] on, with the contents of [optionFormat] so far; it
    gives the final [i] and [optionFormat].  [fuel] bounds the number of
    turns. *)
Fixpoint for_loop (fuel : nat) (subCommandCheck : bool)
    (subCommand : option OptionData) (i : nat) (optionFormat : list ValueEntry)
    : Eff (nat * list ValueEntry) :=
  let! length := options_length in
  if (i <? length)%nat then
    match fuel with
    | O => out_of_fuel
    | S fuel =>
        let! optionFormat := loop_body subCommandCheck subCommand i optionFormat in
        for_loop fuel subCommandCheck subCommand (S i) optionFormat
    end
  else ret (i, optionFormat).

(** [o?.required] as a condition *)
Definition is_required (o : option OptionData) : bool :=
  match o with
  | Some o => default false (opt_required o)
  | None => false
  end.

(** [async sendSlashCommand(message, options = [])], run on the heap that
    holds [this] and the [options] array.
    [!message instanceof Message] is [(!message) instanceof Message], which
    is false, and [options] is an array here: the two guards at the top
    never throw.  The loop is given the length of the token array as fuel:
    it makes one turn per token. *)
Definition sendSlashCommand (message : Message) (client : Client) : Eff SendResult :=
  let! this := get_this in
  if negb (tag_is (cmd_type this) CommandType.CHAT_INPUT) then ret ReturnedFalse
  else
    let subCommandCheck :=
      existsb (λ option, is_sub (opt_type option)) (cmd_options this) in
    let! subCommand :=
      (if subCommandCheck then
         let! first := options_at 0 in
         let subCommand :=
           List.find (λ option, loose_eq_string first (opt_name option))
             (cmd_options this) in
         let! _ := options_shift in
         match subCommand with
         | Some sc => ret (Some sc)
         | None => throw (UndefinedTypeError "type") (* subCommand.type *)
         end
       else ret None) in
    let! fuel := options_length in
    let! r := for_loop fuel subCommandCheck subCommand 0 [] in
    let '(i, optionFormat) := r in
    let! this := get_this in
    if negb subCommandCheck && is_required (cmd_options this !! i)
    then throw RequiredMissingError
    else if subCommandCheck
            && match subCommand with
               | Some sc =>
                   match opt_options sc with
                   | Some os => is_required (os !! i)
                   | None => false
                   end
               | None => false
               end
    then throw RequiredMissingError
    else
      let option_ :=
        match subCommand with
        | Some sc =>
            [Node (enum_get (opt_type sc)) (opt_name sc) optionFormat]
        | None => List.map Leaf optionFormat
        end in
      ret (Posted
             {| body_type := 2;
                body_application_id := cmd_applicationId this;
                body_guild_id := msg_guildId message;
                body_channel_id := msg_channelId message;
                body_session_id := client_session_id client;
                body_data :=
                  {| payload_version := cmd_version this;
                     payload_id := cmd_id this;
                     payload_name := cmd_name this;
                     payload_type := enum_get (cmd_type this);
                     payload_options := Some option_;
                     payload_target_id := None |} |}).

(** [t == 1] for the result of a table lookup: a code compares as a
    number; a member name is not a numeric string and [undefined] equals
    no number. *)
Definition tag_loose_eq_number {A} (t : tag A) (n : Z) : bool :=
  match t with Code m => (m =? n)%Z | _ => false end.

(** [async sendContextMenu(message, sendFromMessage = false)].  The guard
    at the top never throws, as in [sendSlashCommand]. *)
Definition sendContextMenu (this : ApplicationCommand) (message : Message)
    (client : Client) : SendResult :=
  if tag_is (cmd_type this) CommandType.CHAT_INPUT then ReturnedFalse
  else
    Posted
      {| body_type := 2;
         body_application_id := cmd_applicationId this;
         body_guild_id := msg_guildId message;
         body_channel_id := msg_channelId message;
         body_session_id := client_session_id client;
         body_data :=
           {| payload_version := cmd_version this;
              payload_id := cmd_id this;
              payload_name := cmd_name this;
              payload_type := enum_get (cmd_type this);
              payload_options := None;
              payload_target_id :=
                Some (if tag_loose_eq_number (enum_get (cmd_type this)) 1
                      then msg_author_id message
                      else msg_id message) |} |}.

End Encoder.

(** ** Definitions for the statements *)

(** A table is two-way: the name of a valid code has that code, and the
    code of a name names it. *)
Class JsEnumLaws (A : Type) `{JsEnum A} := {
  of_code_code : ∀ a : A, of_code (code a) = Some a;
  code_of_code : ∀ n (a : A), of_code n = Some a → code a = n;
}.

Section Statements.
Context `{JsNumber}.

(** The result of a completion, mapped. *)
Definition cmap {A B} (f : A → B) (c : Completion A) : Completion B :=
  match c with
  | Normal a => Normal (f a)
  | Throw e => Throw e
  | OutOfFuel => OutOfFuel
  end.

(** The option list the tokens are read against: the command's own
    options, or the [options] property of the selected subcommand. *)
Definition scope (subCommandCheck : bool) (subCommand : option OptionData)
    (this : ApplicationCommand) : option (list OptionData) :=
  if subCommandCheck then subCommand ≫= opt_options
  else Some (cmd_options this).

(** The walk of spec 4.3, step 3: options and tokens are consumed together,
    one token per option position; a token beyond the declared options is
    skipped; in the subcommand path an empty token is skipped with its
    position, and a non-empty token cannot be encoded when the subcommand
    has no [options] property. *)
Fixpoint walk (subCommandCheck : bool) (options : option (list OptionData))
    (tokens : list JsVal) : Completion (list ValueEntry) :=
  match tokens with
  | [] => Normal []
  | JStr value :: tokens' =>
      match options with
      | Some [] => walk subCommandCheck (Some []) tokens'
      | Some (o :: options') =>
          if subCommandCheck && negb (truthy (JStr value))
          then walk subCommandCheck (Some options') tokens'
          else
            match make_data o value with
            | Normal data =>
                cmap (cons data) (walk subCommandCheck (Some options') tokens')
            | Throw e => Throw e
            | OutOfFuel => OutOfFuel
            end
      | None =>
          if negb (truthy (JStr value))
          then walk subCommandCheck None tokens'
          else Throw (UndefinedTypeError "options[i]")
      end
  | other :: _ => Throw (TokenTypeError (typeof other))
  end.

(** The body of spec 4.3, step 5, around the option list [option_]. *)
Definition slash_body (this : ApplicationCommand) (message : Message)
    (client : Client) (option_ : list OptionEntry) : InteractionBody :=
  {| body_type := 2;
     body_application_id := cmd_applicationId this;
     body_guild_id := msg_guildId message;
     body_channel_id := msg_channelId message;
     body_session_id := client_session_id client;
     body_data :=
       {| payload_version := cmd_version this;
          payload_id := cmd_id this;
          payload_name := cmd_name this;
          payload_type := enum_get (cmd_type this);
          payload_options := Some option_;
          payload_target_id := None |} |}.

(** Steps 3 to 5 of spec 4.3 for the tokens left after routing: walk them
    against [options], check the next position for a required option, and
    assemble the body, inside the node of [subCommand] if there is one. *)
Definition encode_tokens (this : ApplicationCommand) (message : Message)
    (client : Client) (subCommand : option OptionData)
    (options : option (list OptionData)) (tokens : list JsVal)
    : Completion SendResult :=
  match walk (bool_decide (is_Some subCommand)) options tokens with
  | Normal optionFormat =>
      if is_required (options ≫= (λ os, os !! length tokens))
      then Throw RequiredMissingError
      else
        Normal
          (Posted
             (slash_body this message client
                match subCommand with
                | Some sc =>
                    [Node (enum_get (opt_type sc)) (opt_name sc) optionFormat]
                | None => List.map Leaf optionFormat
                end))
  | Throw e => Throw e
  | OutOfFuel => OutOfFuel
  end.

(** [this.options.some(...)]: the command routes through a subcommand. *)
Definition subCommandCheck (this : ApplicationCommand) : bool :=
  existsb (λ option, is_sub (opt_type option)) (cmd_options this).

(** [this.options.find((option) => option.name == options[0])] *)
Definition select (this : ApplicationCommand) (tokens : list JsVal)
    : option OptionData :=
  List.find (λ option,
               loose_eq_string (default JUndefined (tokens !! 0%nat))
                 (opt_name option))
    (cmd_options this).

(** The first test of [_optionEquals]: some compared property differs. *)
Definition properties_differ (existing option : OptionData) : bool :=
  let optionType := string_type (opt_type option) in
  negb (String.eqb (opt_name option) (opt_name existing))
  || negb (tag_eqb optionType (opt_type existing))
  || negb (opt_eqb String.eqb (opt_description option) (opt_description existing))
  || negb (opt_eqb Bool.eqb (opt_autocomplete option) (opt_autocomplete existing))
  || negb (opt_eqb Bool.eqb
             (nullish (opt_required option) (required_default optionType))
             (opt_required existing))
  || negb (opt_eqb Nat.eqb (opt_length (opt_choices option))
             (opt_length (opt_choices existing)))
  || negb (opt_eqb Nat.eqb (opt_length (opt_options option))
             (opt_length (opt_options existing)))
  || negb (opt_eqb Nat.eqb
             (opt_length (nullish (opt_channelTypes option) (opt_channel_types option)))
             (opt_length (opt_channelTypes existing)))
  || negb (opt_eqb number_eqb
             (nullish (opt_minValue option) (opt_min_value option))
             (opt_minValue existing))
  || negb (opt_eqb number_eqb
             (nullish (opt_maxValue option) (opt_max_value option))
             (opt_maxValue existing)).

End Statements.

(** The tokens that are left to encode after the routing of spec 4.3,
    step 2. *)
Definition remaining `{JsNumber} (this : ApplicationCommand)
    (tokens : list JsVal) : list JsVal :=
  if subCommandCheck this then tail tokens else tokens.

(** The option list the tokens are encoded against after the routing: the
    nested options of the selected subcommand, or the command's own. *)
Definition scoped_options `{JsNumber} (this : ApplicationCommand)
    (tokens : list JsVal) : option (list OptionData) :=
  if subCommandCheck this then select this tokens ≫= opt_options
  else Some (cmd_options this).

(** [data.options] around the entries built by the loop. *)
Definition wrap_entries `{JsNumber} (subCommand : option OptionData)
    (optionFormat : list ValueEntry) : list OptionEntry :=
  match subCommand with
  | Some sc => [Node (enum_get (opt_type sc)) (opt_name sc) optionFormat]
  | None => List.map Leaf optionFormat
  end.

(** [c] with another option list. *)
Definition with_options `{JsNumber} (c : ApplicationCommand)
    (options : list OptionData) : ApplicationCommand :=
  {| cmd_id := cmd_id c; cmd_applicationId := cmd_applicationId c;
     cmd_type := cmd_type c; cmd_name := cmd_name c;
     cmd_description := cmd_description c; cmd_options := options;
     cmd_defaultPermission := cmd_defaultPermission c;
     cmd_version := cmd_version c |}.

(** [o] with another nested option list. *)
Definition with_nested `{JsNumber} (o : OptionData)
    (options : option (list OptionData)) : OptionData :=
  {| opt_type := opt_type o; opt_name := opt_name o;
     opt_description := opt_description o; opt_required := opt_required o;
     opt_autocomplete := opt_autocomplete o; opt_choices := opt_choices o;
     opt_options := options;
     opt_channelTypes := opt_channelTypes o;
     opt_channel_types := opt_channel_types o;
     opt_minValue := opt_minValue o; opt_min_value := opt_min_value o;
     opt_maxValue := opt_maxValue o; opt_max_value := opt_max_value o |}.

(** [c] with another default-permission flag. *)
Definition with_flag `{JsNumber} (c : ApplicationCommand)
    (flag : option bool) : ApplicationCommand :=
  {| cmd_id := cmd_id c; cmd_applicationId := cmd_applicationId c;
     cmd_type := cmd_type c; cmd_name := cmd_name c;
     cmd_description := cmd_description c; cmd_options := cmd_options c;
     cmd_defaultPermission := flag;
     cmd_version := cmd_version c |}.

(** The data of a command without the flag, under either spelling. *)
Definition without_flag `{JsNumber} (d : CommandData) : CommandData :=
  {| data_id := data_id d; data_type := data_type d;
     data_name := data_name d; data_description := data_description d;
     data_version := data_version d;
     data_autocomplete := data_autocomplete d;
     data_options := data_options d;
     data_defaultPermission := None;
     data_default_permission := None |}.

(** The property is absent. *)
Definition is_absent {A} (a : option A) : bool :=
  match a with None => true | Some _ => false end.

(** A bound that is present is not [NaN]. *)
Definition wf_bound `{JsNumber} (n : option number) : bool :=
  match n with Some x => number_eqb x x | None => true end.

(** Choices with distinct names and no [NaN] value (spec 3). *)
Definition wf_choices `{JsNumber} (choices : list Choice) : bool :=
  bool_decide (NoDup (choice_name <$> choices))
  && forallb (λ c, strict_eq (choice_value c) (choice_value c)) choices.

(** A well-formed option of a command (spec 3 and 4.1): what the
    constructor builds from the data of the server through
    [transformOption(o, true)].  The type is a symbolic name; [required] is
    a boolean unless the option is a subcommand or a group; only the
    model spelling of the channel-type and bound properties is present;
    channel types are symbolic; a bound or a choice value is not [NaN];
    choice names, and option names at one level, are distinct. *)
Fixpoint wf_option `{JsNumber} (o : OptionData) : bool :=
  is_name (opt_type o)
  && (negb (is_absent (opt_required o)) || is_sub (opt_type o))
  && match opt_choices o with Some cs => wf_choices cs | None => true end
  && match opt_channelTypes o with
     | Some ts => forallb (λ t, negb (is_code t)) ts
     | None => true
     end
  && is_absent (opt_channel_types o)
  && is_absent (opt_min_value o) && is_absent (opt_max_value o)
  && wf_bound (opt_minValue o) && wf_bound (opt_maxValue o)
  && match opt_options o with
     | Some os =>
         bool_decide (NoDup (opt_name <$> os)) && forallb wf_option os
     | None => true
     end.

(** A well-formed command: its type was looked up from an integer code,
    its default-permission flag is a boolean, its options are well-formed
    and have distinct names. *)
Definition wf_command `{JsNumber} (c : ApplicationCommand) : bool :=
  negb (is_code (cmd_type c))
  && negb (is_absent (cmd_defaultPermission c))
  && bool_decide (NoDup (opt_name <$> cmd_options c))
  && forallb wf_option (cmd_options c).

(** A code that names a member of the table. *)
Definition valid_code {A} `{JsEnum A} (t : tag A) : bool :=
  match t with
  | Code n => match of_code n with Some _ => true | None => false end
  | _ => false
  end.

(** A well-formed wire option ([APIApplicationCommandOption]): the type is
    a valid integer code, the channel types are valid integer codes, only
    the wire spelling of the channel-type and bound properties is present,
    and the nested options are well-formed. *)
Fixpoint wf_wire `{JsNumber} (w : OptionData) : bool :=
  valid_code (opt_type w)
  && is_absent (opt_channelTypes w)
  && is_absent (opt_minValue w) && is_absent (opt_maxValue w)
  && match opt_channel_types w with
     | Some ts => forallb valid_code ts
     | None => true
     end
  && match opt_options w with
     | Some os => forallb wf_wire os
     | None => true
     end.

(** The normal form the round trip is compared in: an absent [required] is
    filled with its default, at every level of the tree. *)
Fixpoint fill_required `{JsNumber} (w : OptionData) : OptionData :=
  {| opt_type := opt_type w; opt_name := opt_name w;
     opt_description := opt_description w;
     opt_required :=
       nullish (opt_required w) (required_default (string_type (opt_type w)));
     opt_autocomplete := opt_autocomplete w; opt_choices := opt_choices w;
     opt_options :=
       match opt_options w with
       | Some os => Some (List.map fill_required os)
       | None => None
       end;
     opt_channelTypes := opt_channelTypes w;
     opt_channel_types := opt_channel_types w;
     opt_minValue := opt_minValue w; opt_min_value := opt_min_value w;
     opt_maxValue := opt_maxValue w; opt_max_value := opt_max_value w |}.

(** The values of a wire option the comparison relies on: the choices
    have distinct names and no [NaN] value, the bounds are not [NaN], the
    nested options have distinct names, at every level. *)
Fixpoint wf_wire_values `{JsNumber} (w : OptionData) : bool :=
  match opt_choices w with Some cs => wf_choices cs | None => true end
  && wf_bound (opt_min_value w) && wf_bound (opt_max_value w)
  && match opt_options w with
     | Some os =>
         bool_decide (NoDup (opt_name <$> os)) && forallb wf_wire_values os
     | None => true
     end.

(** Well-formed data of a command: an integer type code, the
    default-permission flag, and well-formed options with distinct
    names. *)
Definition wf_api_command `{JsNumber} (data : APIApplicationCommand) : bool :=
  is_code (api_type data)
  && negb (is_absent (api_default_permission data))
  && match api_options data with
     | Some os =>
         bool_decide (NoDup (opt_name <$> os))
         && forallb wf_wire os && forallb wf_wire_values os
     | None => true
     end.

(** ** A number model for closed examples *)

(** Integers and [NaN].  [Number(s)] is given for the strings the examples
    use: the empty string is [0], a string of decimal digits is its value,
    and a word such as ["zero"] is [NaN].  Signs, fractions, exponents and
    blanks are not read. *)
Inductive int_or_nan := NaN | Int (z : Z).

Definition digit_of (a : Ascii.ascii) : option Z :=
  let n := Z.of_N (Ascii.N_of_ascii a) in
  if ((48 <=? n) && (n <=? 57))%Z then Some (n - 48) else None.

Fixpoint digits_from (acc : Z) (s : string) : int_or_nan :=
  match s with
  | EmptyString => Int acc
  | String a rest =>
      match digit_of a with
      | Some d => digits_from (10 * acc + d) rest
      | None => NaN
      end
  end.

Global Instance ExampleNumber : JsNumber :=
  {| number := int_or_nan;
     number_eqb a b :=
       match a, b with Int x, Int y => (x =? y)%Z | _, _ => false end;
     number_truthy a :=
       match a with Int z => negb (z =? 0)%Z | NaN => false end;
     StringToNumber := digits_from 0 |}.

(** ** Inputs of the closed examples *)

(** The inputs of the closed examples. *)
Definition example_message : Message :=
  {| msg_id := "900"; msg_guildId := Some "10"; msg_channelId := "20";
     msg_author_id := "777" |}.

Definition example_client : Client := {| client_session_id := Some "s" |}.

Definition example_command (type : tag CommandType.t)
    (options : list OptionData) : ApplicationCommand :=
  {| cmd_id := "1"; cmd_applicationId := "2"; cmd_type := type;
     cmd_name := "cmd"; cmd_description := Some "a command";
     cmd_options := options; cmd_defaultPermission := Some true;
     cmd_version := Some "3" |}.

(** A command with one required [STRING] option "a". *)
Definition string_option (name : string) (required : option bool) : OptionData :=
  {| opt_type := Name OptionType.STRING; opt_name := name;
     opt_description := Some "an option"; opt_required := required;
     opt_autocomplete := None; opt_choices := None; opt_options := None;
     opt_channelTypes := None; opt_channel_types := None;
     opt_minValue := None; opt_min_value := None;
     opt_maxValue := None; opt_max_value := None |}.

Definition required_a_command : ApplicationCommand :=
  example_command (Name CommandType.CHAT_INPUT)
    [string_option "a" (Some true)].

(** A subcommand node. *)
Definition sub_command (name : string) (options : option (list OptionData))
    : OptionData :=
  {| opt_type := Name OptionType.SUB_COMMAND; opt_name := name;
     opt_description := Some "a subcommand"; opt_required := None;
     opt_autocomplete := None; opt_choices := None; opt_options := options;
     opt_channelTypes := None; opt_channel_types := None;
     opt_minValue := None; opt_min_value := None;
     opt_maxValue := None; opt_max_value := None |}.

(** The command of the routing example: subcommands "add" and "remove",
    each with one required [STRING] option "role". *)
Definition role_command : ApplicationCommand :=
  example_command (Name CommandType.CHAT_INPUT)
    [sub_command "add" (Some [string_option "role" (Some true)]);
     sub_command "remove" (Some [string_option "role" (Some true)])].

(** The options of [role_command] in the other order. *)
Definition swapped_options : list OptionData :=
  [sub_command "remove" (Some [string_option "role" (Some true)]);
   sub_command "add" (Some [string_option "role" (Some true)])].

(** The heap of the routing example: the tokens "add", "12345" and the
    command [role_command]. *)
Definition role_heap : Heap :=
  {| heap_options := [JStr "add"; JStr "12345"]; heap_this := role_command |}.

(** The command of the empty-token example: the subcommand "add" with the
    required option "role" and the option "reason". *)
Definition role_reason_command : ApplicationCommand :=
  example_command (Name CommandType.CHAT_INPUT)
    [sub_command "add"
       (Some [string_option "role" (Some true);
              string_option "reason" (Some false)])].

(** An [INTEGER] option "n" with the choices [{name: "zero", value: 0}] and
    [{name: "five", value: 5}], and an option "s" whose only choice is
    [{name: "five", value: "5"}]. *)
Definition number_choices : list Choice :=
  [{| choice_name := "zero"; choice_value := JNum (Int 0) |};
   {| choice_name := "five"; choice_value := JNum (Int 5) |}].

Definition choice_option (type : OptionType.t) (name : string)
    (choices : list Choice) : OptionData :=
  {| opt_type := Name type; opt_name := name;
     opt_description := Some "a choice"; opt_required := Some true;
     opt_autocomplete := None; opt_choices := Some choices;
     opt_options := None;
     opt_channelTypes := None; opt_channel_types := None;
     opt_minValue := None; opt_min_value := None;
     opt_maxValue := None; opt_max_value := None |}.

Definition zero_choice_command : ApplicationCommand :=
  example_command (Name CommandType.CHAT_INPUT)
    [choice_option OptionType.INTEGER "n" number_choices].

(** A subcommand on the wire, with a channel option filtered to text and
    voice channels and an integer option bounded by 1 and 10. *)
Definition wire_example : OptionData :=
  {| opt_type := Code 1; opt_name := "move";
     opt_description := Some "move a member"; opt_required := None;
     opt_autocomplete := None; opt_choices := None;
     opt_options :=
       Some
         [{| opt_type := Code 7; opt_name := "to";
             opt_description := Some "target channel";
             opt_required := Some true;
             opt_autocomplete := None; opt_choices := None;
             opt_options := None; opt_channelTypes := None;
             opt_channel_types := Some [Code 0; Code 2];
             opt_minValue := None; opt_min_value := None;
             opt_maxValue := None; opt_max_value := None |};
          {| opt_type := Code 4; opt_name := "count";
             opt_description := Some "how many"; opt_required := None;
             opt_autocomplete := None;
             opt_choices :=
               Some [{| choice_name := "one"; choice_value := JNum (Int 1) |}];
             opt_options := None; opt_channelTypes := None;
             opt_channel_types := None;
             opt_minValue := None; opt_min_value := Some (Int 1);
             opt_maxValue := None; opt_max_value := Some (Int 10) |}];
     opt_channelTypes := None; opt_channel_types := None;
     opt_minValue := None; opt_min_value := None;
     opt_maxValue := None; opt_max_value := None |}.

(** The data of a command with that option, as the server sends it. *)
Definition api_example : APIApplicationCommand :=
  {| api_id := "1"; api_application_id := "2"; api_type := Code 1;
     api_name := "voice"; api_description := Some "voice tools";
     api_options := Some [wire_example];
     api_default_permission := Some true; api_version := Some "3" |}.

(** ** Further definitions: shapes of option trees *)

(** Only the wire spelling ([channel_types], [min_value], [max_value]) is
    present, at every level of the tree. *)
Fixpoint only_wire_spelling `{JsNumber} (o : OptionData) : bool :=
  is_absent (opt_channelTypes o)
  && is_absent (opt_minValue o) && is_absent (opt_maxValue o)
  && match opt_options o with
     | Some os => forallb only_wire_spelling os
     | None => true
     end.

(** Only the model spelling ([channelTypes], [minValue], [maxValue]) is
    present, at every level of the tree. *)
Fixpoint only_model_spelling `{JsNumber} (o : OptionData) : bool :=
  is_absent (opt_channel_types o)
  && is_absent (opt_min_value o) && is_absent (opt_max_value o)
  && match opt_options o with
     | Some os => forallb only_model_spelling os
     | None => true
     end.

(** No type of the tree is a symbolic name. *)
Fixpoint no_symbolic_type `{JsNumber} (o : OptionData) : bool :=
  negb (is_name (opt_type o))
  && match opt_options o with
     | Some os => forallb no_symbolic_type os
     | None => true
     end.

(** The model shape of the example option. *)
Definition model_example : OptionData := transformOption wire_example true.

(** ** Further definitions: candidates of the comparison *)

(** The data of the server as the argument of [equals]
    ([APIApplicationCommand]): the flag is spelled [default_permission],
    the options are in the wire shape. *)
Definition api_as_data `{JsNumber} (data : APIApplicationCommand) : CommandData :=
  {| data_id := Some (api_id data);
     data_type := api_type data;
     data_name := api_name data;
     data_description := api_description data;
     data_version := api_version data;
     data_autocomplete := None;
     data_options := api_options data;
     data_defaultPermission := None;
     data_default_permission := api_default_permission data |}.

(** [d] with another option list. *)
Definition with_data_options `{JsNumber} (d : CommandData)
    (options : option (list OptionData)) : CommandData :=
  {| data_id := data_id d; data_type := data_type d;
     data_name := data_name d; data_description := data_description d;
     data_version := data_version d;
     data_autocomplete := data_autocomplete d;
     data_options := options;
     data_defaultPermission := data_defaultPermission d;
     data_default_permission := data_default_permission d |}.

(** [o] with other channel types, under the model spelling. *)
Definition with_channelTypes `{JsNumber} (o : OptionData)
    (channelTypes : list (tag ChannelType.t)) : OptionData :=
  {| opt_type := opt_type o; opt_name := opt_name o;
     opt_description := opt_description o; opt_required := opt_required o;
     opt_autocomplete := opt_autocomplete o; opt_choices := opt_choices o;
     opt_options := opt_options o;
     opt_channelTypes := Some channelTypes;
     opt_channel_types := opt_channel_types o;
     opt_minValue := opt_minValue o; opt_min_value := opt_min_value o;
     opt_maxValue := opt_maxValue o; opt_max_value := opt_max_value o |}.

(** ** Further definitions: the entries of a posted body *)

(** The type code and the name an entry takes from an option, and those of
    an entry. *)
Definition option_header `{JsNumber} (o : OptionData) : tag OptionType.t * string :=
  (enum_get (opt_type o), opt_name o).

Definition entry_header `{JsNumber} (e : ValueEntry) : tag OptionType.t * string :=
  (entry_type e, entry_name e).

(** The token at a position gives an entry: always in the plain path, when
    it is not the empty string in the subcommand path. *)
Definition gives_entry `{JsNumber} (subCommandCheck : bool) (token : JsVal) : bool :=
  negb (subCommandCheck && negb (truthy token)).

(** The options that get an entry: those at the positions of the tokens
    that give one. *)
Definition encoded_options `{JsNumber} (subCommandCheck : bool)
    (options : list OptionData) (tokens : list JsVal) : list OptionData :=
  List.map fst
    (List.filter (λ p, gives_entry subCommandCheck (snd p))
       (List.combine options tokens)).

(** A [BOOLEAN] option without choices. *)
Definition boolean_option (name : string) : OptionData :=
  {| opt_type := Name OptionType.BOOLEAN; opt_name := name;
     opt_description := Some "a flag"; opt_required := Some false;
     opt_autocomplete := None; opt_choices := None; opt_options := None;
     opt_channelTypes := None; opt_channel_types := None;
     opt_minValue := None; opt_min_value := None;
     opt_maxValue := None; opt_max_value := None |}.

(** A channel option of the model with a channel-type filter. *)
Definition channel_option (channelTypes : list (tag ChannelType.t)) : OptionData :=
  {| opt_type := Name OptionType.CHANNEL; opt_name := "to";
     opt_description := Some "target channel"; opt_required := Some true;
     opt_autocomplete := None; opt_choices := None; opt_options := None;
     opt_channelTypes := Some channelTypes; opt_channel_types := None;
     opt_minValue := None; opt_min_value := None;
     opt_maxValue := None; opt_max_value := None |}.

(** ** Further definitions: a subcommand's arguments as a command *)

(** The value entries among the elements of [data.options]. *)
Definition leaves `{JsNumber} (entries : list OptionEntry) : list ValueEntry :=
  List.concat
    (List.map (λ e, match e with Leaf v => [v] | Node _ _ _ => [] end) entries).

(** The completion of a plain call, with the entries it posts put inside
    the node of the subcommand [sc] of the command [this]. *)
Definition nest `{JsNumber} (this : ApplicationCommand) (message : Message)
    (client : Client) (sc : OptionData) (plain : Completion SendResult)
    : Completion SendResult :=
  match plain with
  | Normal (Posted body) =>
      Normal
        (Posted
           (slash_body this message client
              [Node (enum_get (opt_type sc)) (opt_name sc)
                 (leaves (default [] (payload_options (body_data body))))]))
  | other => other
  end.

(** ** The client user ([ClientUser]): edits guarded by the password *)

Module ClientUser.

(** [this.client]: the token and the password it holds. *)
Record Account := {
  acct_token : option string;
  acct_password : option string;
}.

(** The object handed to [edit] by the setters below
    ([ClientUserEditData], as far as they fill it). *)
Record EditData := {
  ed_username : option string;
  ed_discriminator : option string;
  ed_email : option string;
  ed_password : option string;
  ed_new_password : option string;
}.

(** What a setter does when it does not throw: [this.edit(data)], or a
    post to [users/@me/disable] or [users/@me/delete] with
    [{ password }]. *)
Inductive Call :=
| Edit (data : EditData)
| DisablePost (password : option string)
| DeletePost (password : option string).

(** A setter throws [new Error(message)] or makes its call. *)
Inductive Attempt :=
| Raised (message : string)
| Called (call : Call).

(** [if (p)] for a string or [undefined]. *)
Definition given (p : option string) : bool :=
  match p with
  | Some s => negb (String.eqb s "")
  | None => false
  end.

(** [this.client.password ? this.client.password : password] *)
Definition password_to_send (client : Account) (password : option string)
    : option string :=
  if given (acct_password client) then acct_password client else password.

(** [setUsername(username, password)] *)
Definition setUsername (client : Account) (username password : option string)
    : Attempt :=
  if negb (given password) && negb (given (acct_password client))
  then Raised "A password is required to change a username."
  else Called (Edit {| ed_username := username; ed_discriminator := None;
                       ed_email := None;
                       ed_password := password_to_send client password;
                       ed_new_password := None |}).

(** [setDiscriminator(discriminator, password)]; [nitro] is [this.nitro]. *)
Definition setDiscriminator (client : Account) (nitro : option bool)
    (discriminator password : option string) : Attempt :=
  if negb (default false nitro)
  then Raised "You must be a Nitro User to change your discriminator."
  else if negb (given password) && negb (given (acct_password client))
  then Raised "A password is required to change a discriminator."
  else Called (Edit {| ed_username := None; ed_discriminator := discriminator;
                       ed_email := None;
                       ed_password := password_to_send client password;
                       ed_new_password := None |}).

(** [setEmail(email, password)] *)
Definition setEmail (client : Account) (email password : option string)
    : Attempt :=
  if negb (given password) && negb (given (acct_password client))
  then Raised "A password is required to change a email."
  else Called (Edit {| ed_username := None; ed_discriminator := None;
                       ed_email := email;
                       ed_password := password_to_send client password;
                       ed_new_password := None |}).

(** [setPassword(oldPassword, newPassword)] *)
Definition setPassword (client : Account)
    (oldPassword newPassword : option string) : Attempt :=
  if negb (given oldPassword) && negb (given (acct_password client))
  then Raised "A password is required to change a password."
  else if negb (given newPassword)
  then Raised "New password is required."
  else Called (Edit {| ed_username := None; ed_discriminator := None;
                       ed_email := None;
                       ed_password := password_to_send client oldPassword;
                       ed_new_password := newPassword |}).

(** [async disableAccount(password)] *)
Definition disableAccount (client : Account) (password : option string)
    : Attempt :=
  if negb (given password) && negb (given (acct_password client))
  then Raised "A password is required to disable an account."
  else Called (DisablePost (password_to_send client password)).

(** [async deleteAccount(password)] *)
Definition deleteAccount (client : Account) (password : option string)
    : Attempt :=
  if negb (given password) && negb (given (acct_password client))
  then Raised "A password is required to delete an account."
  else Called (DeletePost (password_to_send client password)).

(** [async edit(data)], as it leaves [this.client], for data without
    [avatar] and [banner] (the setters above pass none) and a patch request
    that answers with [newData]: [newToken] is [newData.token]. *)
Definition edit (client : Account) (data : EditData)
    (newToken : option string) : Account :=
  {| acct_token := newToken;
     acct_password :=
       if given (ed_password data) then ed_password data
       else acct_password client |}.

(** The setters guarded by the password, with their arguments. *)
Inductive Setter :=
| SetUsername (username password : option string)
| SetDiscriminator (nitro : option bool) (discriminator password : option string)
| SetEmail (email password : option string)
| SetPassword (oldPassword newPassword : option string)
| DisableAccount (password : option string)
| DeleteAccount (password : option string).

(** The call of a setter on the client. *)
Definition run (client : Account) (s : Setter) : Attempt :=
  match s with
  | SetUsername username password => setUsername client username password
  | SetDiscriminator nitro discriminator password =>
      setDiscriminator client nitro discriminator password
  | SetEmail email password => setEmail client email password
  | SetPassword oldPassword newPassword =>
      setPassword client oldPassword newPassword
  | DisableAccount password => disableAccount client password
  | DeleteAccount password => deleteAccount client password
  end.

(** The password argument of a setter. *)
Definition supplied (s : Setter) : option string :=
  match s with
  | SetUsername _ password | SetDiscriminator _ _ password
  | SetEmail _ password | SetPassword password _
  | DisableAccount password | DeleteAccount password => password
  end.

(** The password a call carries. *)
Definition sent (c : Call) : option string :=
  match c with
  | Edit data => ed_password data
  | DisablePost password | DeletePost password => password
  end.

(** A client without a stored password, and one with the stored password
    "old". *)
Definition fresh_account : Account :=
  {| acct_token := Some "t"; acct_password := None |}.

Definition logged_account : Account :=
  {| acct_token := Some "t"; acct_password := Some "old" |}.

End ClientUser.

(** [o] with other choices. *)
Definition with_choices `{JsNumber} (o : OptionData)
    (choices : list Choice) : OptionData :=
  {| opt_type := opt_type o; opt_name := opt_name o;
     opt_description := opt_description o; opt_required := opt_required o;
     opt_autocomplete := opt_autocomplete o; opt_choices := Some choices;
     opt_options := opt_options o;
     opt_channelTypes := opt_channelTypes o;
     opt_channel_types := opt_channel_types o;
     opt_minValue := opt_minValue o; opt_min_value := opt_min_value o;
     opt_maxValue := opt_maxValue o; opt_max_value := opt_max_value o |}.

(** The choices of the example option in the other order. *)
Definition swapped_choices : list Choice :=
  [{| choice_name := "five"; choice_value := JNum (Int 5) |};
   {| choice_name := "zero"; choice_value := JNum (Int 0) |}].

(** The type code and the name of a wire option. *)
Definition wire_header `{JsNumber} (w : OptionData) : tag OptionType.t * string :=
  (opt_type w, opt_name w).

(** The data of a chat-input command with the option "count" of the
    example, as the server sends it. *)
Definition api_count_example : APIApplicationCommand :=
  {| api_id := "1"; api_application_id := "2"; api_type := Code 1;
     api_name := "repeat"; api_description := Some "repeat a message";
     api_options :=
       Some [{| opt_type := Code 4; opt_name := "count";
                opt_description := Some "how many"; opt_required := None;
                opt_autocomplete := None; opt_choices := None;
                opt_options := None; opt_channelTypes := None;
                opt_channel_types := None;
                opt_minValue := None; opt_min_value := Some (Int 1);
                opt_maxValue := None; opt_max_value := Some (Int 10) |}];
     api_default_permission := Some true; api_version := Some "3" |}.

(** A command with the subcommand "ping", which has no [options]
    property. *)
Definition ping_command : ApplicationCommand :=
  example_command (Name CommandType.CHAT_INPUT) [sub_command "ping" None].

(** ** Further definitions: a candidate with its options rearranged *)

(** A command with the plain options "role" and "reason", and its data
    with the two options in the other order. *)
Definition role_then_reason : ApplicationCommand :=
  example_command (Name CommandType.CHAT_INPUT)
    [string_option "role" (Some true); string_option "reason" (Some false)].

Definition reason_then_role : CommandData :=
  with_data_options (as_data role_then_reason)
    (Some [string_option "reason" (Some false);
           string_option "role" (Some true)]).

(** * Properties *)

(** ** The enumeration tables *)

Global Instance ApplicationCommandTypes_laws : JsEnumLaws CommandType.t.
Proof.
  split.
  - by intros [].
  - intros n a. simpl. unfold CommandType.from_code.
    intros Hn. repeat case_match; simplify_eq; reflexivity.
Qed.

Global Instance ApplicationCommandOptionTypes_laws : JsEnumLaws OptionType.t.
Proof.
  split.
  - by intros [].
  - intros n a. simpl. unfold OptionType.from_code.
    intros Hn. repeat case_match; simplify_eq; reflexivity.
Qed.

Global Instance ChannelTypes_laws : JsEnumLaws ChannelType.t.
Proof.
  split.
  - by intros [].
  - intros n a. simpl. unfold ChannelType.from_code.
    intros Hn. repeat case_match; simplify_eq; reflexivity.
Qed.

Section EnumFacts.
Context {A : Type} `{JsEnumLaws A}.

Lemma enum_get_code_name (n : Z) (a : A) :
  of_code n = Some a → enum_get (enum_get (Code n)) = Code n.
Proof.
  intros Hn. simpl. rewrite Hn. simpl. f_equal. by apply code_of_code.
Qed.

Lemma enum_get_name (a : A) : enum_get (enum_get (Name a)) = Name a.
Proof. simpl. by rewrite of_code_code. Qed.

Lemma enum_get_not_code (t : tag A) :
  is_code t = true → is_code (enum_get t) = false.
Proof. destruct t; try discriminate. intros _. simpl. by case_match. Qed.
End EnumFacts.

(** ** Context-menu encoder *)

Section ContextMenu.
Context `{JsNumber}.

(** The lookup of a command type the encoder did not reject is never
    the code [1]: that is the code of [CHAT_INPUT]. *)
Lemma context_type_not_1 (t : tag CommandType.t) :
  tag_is t CommandType.CHAT_INPUT = false →
  tag_loose_eq_number (enum_get t) 1 = false.
Proof.
  destruct t as [k|n|]; simpl; try done.
  - by destruct k.
  - by case_match.
Qed.

(** Whatever the command's kind, a body posted by [sendContextMenu]
    carries the message's id as [target_id]. *)
Lemma sendContextMenu_target (this : ApplicationCommand) (message : Message)
    (client : Client) (body : InteractionBody) :
  sendContextMenu this message client = Posted body →
  payload_target_id (body_data body) = Some (msg_id message).
Proof.
  unfold sendContextMenu.
  destruct (tag_is (cmd_type this) CommandType.CHAT_INPUT) eqn:Hk; [done|].
  intros [= <-]. simpl. by rewrite context_type_not_1.
Qed.
End ContextMenu.

(** C1, at a user-targeting command: for the command of kind [USER] and a
    message with id "900" written by the user "777", the context-menu
    encoder posts a body whose [target_id] is "900", the id of the message,
    and not "777", the id of the referenced user; for the kind [MESSAGE]
    the [target_id] is the message's id "900" as well. *)
Theorem sendContextMenu_user_command :
  (∃ body,
     sendContextMenu (example_command (Name CommandType.USER) [])
       example_message example_client = Posted body
     ∧ payload_target_id (body_data body) = Some (msg_id example_message)
     ∧ payload_target_id (body_data body) ≠ Some (msg_author_id example_message))
  ∧ (∃ body,
       sendContextMenu (example_command (Name CommandType.MESSAGE) [])
         example_message example_client = Posted body
       ∧ payload_target_id (body_data body) = Some (msg_id example_message)).
Proof.
  split; eexists; (split; [reflexivity|]); simpl; [split|]; done.
Qed.

(** ** Chat-input encoder: the loop as a walk in lock-step *)

Section Walk.
Context `{JsNumber}.

Lemma cmap_cmap {A B C} (f : A → B) (g : B → C) (c : Completion A) :
  cmap g (cmap f c) = cmap (g ∘ f) c.
Proof. by destruct c. Qed.

Lemma cmap_ext {A B} (f g : A → B) (c : Completion A) :
  (∀ a, f a = g a) → cmap f c = cmap g c.
Proof. intros Hfg. destruct c; simpl; by rewrite ?Hfg. Qed.

(** The loop body reads the heap and leaves it as it is. *)
Lemma loop_body_heap sc sub i acc (h : Heap) :
  (loop_body sc sub i acc h).2 = h.
Proof.
  unfold loop_body, bind, options_at, get_this, ret, throw, lift.
  repeat (case_match; simpl in *; simplify_eq; try done).
Qed.

Lemma for_loop_heap fuel sc sub i acc (h : Heap) :
  (for_loop fuel sc sub i acc h).2 = h.
Proof.
  revert i acc. induction fuel as [|fuel IH]; intros i acc; simpl;
    unfold bind, options_length; simpl; case_match; try done.
  pose proof (loop_body_heap sc sub i acc h) as Hb.
  destruct (loop_body sc sub i acc h) as [[acc'| |] h']; simpl in *; subst;
    auto.
Qed.

(** The loop is the walk: from position [i], with enough fuel for the
    tokens that are left, it appends to [optionFormat] what the walk gives
    for the options and the tokens from [i] on, and stops at the length of
    the token array. *)
Lemma for_loop_walk fuel sc sub i acc (h : Heap) :
  (sc = true → is_Some sub) →
  (length (heap_options h) - i ≤ fuel)%nat →
  for_loop fuel sc sub i acc h =
    (cmap (λ ds, (Nat.max i (length (heap_options h)), (acc ++ ds)%list))
       (walk sc (drop i <$> scope sc sub (heap_this h))
          (drop i (heap_options h))), h).
Proof.
  intros Hsub. revert i acc.
  induction fuel as [|fuel IH]; intros i acc Hfuel.
  - simpl. unfold bind, options_length; simpl.
    destruct (i <? length (heap_options h))%nat eqn:Hi.
    { apply Nat.ltb_lt in Hi. lia. }
    apply Nat.ltb_ge in Hi. rewrite (drop_ge _ _ Hi). simpl.
    by rewrite Nat.max_l, app_nil_r.
  - simpl. unfold bind at 1, options_length; simpl.
    destruct (i <? length (heap_options h))%nat eqn:Hi.
    2:{ apply Nat.ltb_ge in Hi. rewrite (drop_ge _ _ Hi). simpl.
        by rewrite Nat.max_l, app_nil_r. }
    apply Nat.ltb_lt in Hi.
    destruct (lookup_lt_is_Some_2 _ _ Hi) as [tok Htok].
    rewrite (drop_S _ _ _ Htok).
    assert (Hmax : Nat.max i (length (heap_options h))
                   = Nat.max (S i) (length (heap_options h))) by lia.
    unfold bind at 1, loop_body, bind at 1, options_at. rewrite Htok. simpl.
    destruct tok as [| |b|n|value]; try done.
    unfold bind at 1, get_this, scope.
    destruct sc; simpl.
    + destruct (Hsub eq_refl) as [s ->]. simpl.
      destruct (opt_options s) as [os|] eqn:Hos; simpl.
      * destruct (os !! i) as [o|] eqn:Ho.
        -- rewrite bool_decide_eq_true_2 by eauto. simpl.
           rewrite (drop_S _ _ _ Ho).
           destruct (String.eqb value "") eqn:Hv; simpl.
           ++ unfold ret. rewrite IH by lia. unfold scope; simpl.
              rewrite Hos, Hmax. done.
           ++ unfold bind, lift, ret.
              destruct (make_data o value) as [d| |]; try done.
              rewrite IH by lia. unfold scope; simpl. rewrite Hos, Hmax. simpl.
              rewrite cmap_cmap. f_equal. apply cmap_ext; intros ds; simpl.
              by rewrite <- app_assoc.
        -- rewrite bool_decide_eq_false_2 by (intros [? ?]; congruence).
           simpl. unfold ret.
           apply lookup_ge_None in Ho.
           rewrite (drop_ge os i) by lia.
           rewrite IH by lia. unfold scope; simpl. rewrite Hos, Hmax. simpl.
           rewrite (drop_ge os (S i)) by lia. done.
      * destruct (String.eqb value "") eqn:Hv; simpl; [|done].
        unfold ret. rewrite IH by lia. unfold scope; simpl.
        by rewrite Hos, Hmax.
    + destruct (cmd_options (heap_this h) !! i) as [o|] eqn:Ho.
      * rewrite bool_decide_eq_true_2 by eauto. simpl.
        rewrite (drop_S _ _ _ Ho).
        unfold bind, lift, ret.
        destruct (make_data o value) as [d| |]; try done.
        rewrite IH by lia. unfold scope; simpl. rewrite Hmax.
        rewrite cmap_cmap. f_equal. apply cmap_ext; intros ds; simpl.
        by rewrite <- app_assoc.
      * rewrite bool_decide_eq_false_2 by (intros [? ?]; congruence).
        simpl. unfold ret.
        apply lookup_ge_None in Ho.
        rewrite (drop_ge (cmd_options (heap_this h)) i) by lia.
        rewrite IH by lia. unfold scope; simpl. rewrite Hmax.
        rewrite (drop_ge (cmd_options (heap_this h)) (S i)) by lia. done.
Qed.

End Walk.

Section EncoderSpec.
Context `{JsNumber}.

(** [sendSlashCommand] in one piece: what it completes with, and the heap
    it leaves. *)
Lemma sendSlashCommand_unfold message client (h : Heap) :
  sendSlashCommand message client h =
    let this := heap_this h in
    if negb (tag_is (cmd_type this) CommandType.CHAT_INPUT)
    then (Normal ReturnedFalse, h)
    else if subCommandCheck this then
      let h' := {| heap_options := tail (heap_options h); heap_this := this |} in
      match select this (heap_options h) with
      | Some sc =>
          (encode_tokens this message client (Some sc) (opt_options sc)
             (tail (heap_options h)), h')
      | None => (Throw (UndefinedTypeError "type"), h')
      end
    else
      (encode_tokens this message client None (Some (cmd_options this))
         (heap_options h), h).
Proof.
  unfold sendSlashCommand, subCommandCheck, select.
  unfold bind at 1, get_this. simpl.
  destruct (tag_is (cmd_type (heap_this h)) CommandType.CHAT_INPUT); [|done].
  simpl.
  destruct (existsb _ (cmd_options (heap_this h))) eqn:Hsc.
  - unfold bind at 1, bind at 1, options_at, bind at 1, options_shift. simpl.
    destruct (List.find _ (cmd_options (heap_this h))) as [sc|] eqn:Hfind;
      [|done].
    unfold ret at 1. unfold bind at 1, options_length. simpl.
    unfold bind at 1.
    set (h' := {| heap_options := tail (heap_options h);
                  heap_this := heap_this h |}).
    rewrite (for_loop_walk _ true (Some sc) 0 [] h') by (eauto || simpl; lia).
    unfold encode_tokens, scope. simpl.
    rewrite ?bool_decide_eq_true_2 by eauto.
    assert (Hd : drop 0 <$> opt_options sc = opt_options sc)
      by by destruct (opt_options sc).
    rewrite Hd. clear Hd.
    destruct (walk true (opt_options sc) _) as [ds| |]; simpl; try done.
    unfold bind, get_this. simpl.
    destruct (opt_options sc) as [os|]; simpl; [|done].
    by destruct (is_required (os !! _)).
  - unfold ret at 1. unfold bind at 1. unfold bind at 1, options_length. simpl.
    unfold bind at 1.
    rewrite (for_loop_walk _ false None 0 [] h) by (done || simpl; lia).
    unfold encode_tokens, scope. simpl.
    rewrite ?bool_decide_eq_false_2 by (intros [? ?]; done).
    destruct (walk false _ _) as [ds| |]; simpl; try done.
    unfold bind, get_this. simpl.
    by destruct (is_required (cmd_options (heap_this h) !! _)).
Qed.

End EncoderSpec.

Section EncoderFacts.
Context `{JsNumber}.

Lemma make_data_total opt value : make_data opt value ≠ OutOfFuel.
Proof. unfold make_data. repeat case_match; done. Qed.

Lemma walk_total sc options tokens : walk sc options tokens ≠ OutOfFuel.
Proof.
  revert options. induction tokens as [|tok tokens IH]; intros options;
    simpl; [done|].
  destruct tok; try done.
  destruct options as [[|o os]|]; try apply IH.
  - destruct (sc && _); [apply IH|].
    pose proof (make_data_total o s).
    destruct (make_data o s); try done.
    specialize (IH (Some os)). by destruct (walk sc (Some os) tokens).
  - destruct (negb _); [apply IH|done].
Qed.

(** The fuel given to the loop is enough: a call of [sendSlashCommand]
    returns or throws. *)
Lemma sendSlashCommand_total message client (h : Heap) :
  (sendSlashCommand message client h).1 ≠ OutOfFuel.
Proof.
  rewrite sendSlashCommand_unfold. simpl.
  repeat case_match; simpl; try done; unfold encode_tokens;
    match goal with
    | |- context [walk ?sc ?o ?t] =>
        pose proof (walk_total sc o t); destruct (walk sc o t)
    end; try done; by case_match.
Qed.

End EncoderFacts.

(** C4: in a chat-input call, once every token is consumed: if the option
    at the next position of the option list in scope (the command's, or the
    selected subcommand's) exists and is required, the call throws, and
    what it throws is the missing-value error whenever the tokens
    themselves were encoded without error; if there is no required option
    at that position, the entries built from the tokens are posted. *)
Theorem required_enforced `{JsNumber} message client (h : Heap) :
  let this := heap_this h in
  let tokens := remaining this (heap_options h) in
  let options := scoped_options this (heap_options h) in
  tag_is (cmd_type this) CommandType.CHAT_INPUT = true →
  (is_required (options ≫= (λ os, os !! length tokens)) = true →
   ∃ e, (sendSlashCommand message client h).1 = Throw e
        ∧ (∀ ds, walk (subCommandCheck this) options tokens = Normal ds →
                 e = RequiredMissingError))
  ∧ (is_required (options ≫= (λ os, os !! length tokens)) = false →
     (subCommandCheck this = true → is_Some (select this (heap_options h))) →
     ∀ ds, walk (subCommandCheck this) options tokens = Normal ds →
           (sendSlashCommand message client h).1 =
             Normal (Posted (slash_body this message client
                               (wrap_entries
                                  (if subCommandCheck this
                                   then select this (heap_options h)
                                   else None) ds)))).
Proof.
  intros this tokens options Hkind.
  rewrite sendSlashCommand_unfold. fold this.
  subst tokens options. unfold remaining, scoped_options.
  rewrite Hkind. simpl.
  destruct (subCommandCheck this) eqn:Hsc.
  - destruct (select this (heap_options h)) as [sc|] eqn:Hsel; simpl.
    + unfold encode_tokens. rewrite bool_decide_eq_true_2 by eauto.
      split.
      * intros Hreq. rewrite Hreq.
        pose proof (walk_total true (opt_options sc) (tail (heap_options h))).
        destruct (walk true _ _) as [ds|e|]; try done.
        -- eexists; split; [done|]. done.
        -- exists e; split; [done|]. done.
      * intros Hreq _ ds ->. by rewrite Hreq.
    + split; [done|]. intros _ Hsome. destruct (Hsome eq_refl); done.
  - unfold encode_tokens. rewrite bool_decide_eq_false_2 by (intros [? ?]; done).
    simpl. split.
    + intros Hreq. rewrite Hreq.
      pose proof (walk_total false (Some (cmd_options this)) (heap_options h)).
      destruct (walk false _ _) as [ds|e|]; try done.
      * eexists; split; [done|]. done.
      * exists e; split; [done|]. done.
    + intros Hreq _ ds ->. by rewrite Hreq.
Qed.

(** The example of C4: with no token the required option "a" is missing
    and the call throws; with the token "x" the call posts
    [options: [{type: STRING, name: "a", value: "x"}]]. *)
Lemma required_enforced_witness :
  (sendSlashCommand example_message example_client
     {| heap_options := []; heap_this := required_a_command |}).1
  = Throw RequiredMissingError
  ∧ (sendSlashCommand example_message example_client
       {| heap_options := [JStr "x"]; heap_this := required_a_command |}).1
    = Normal (Posted
                (slash_body required_a_command example_message example_client
                   [Leaf {| entry_type := Code 3; entry_name := "a";
                            entry_value := JStr "x" |}])).
Proof.
  split.
  - destruct (required_enforced example_message example_client
                {| heap_options := []; heap_this := required_a_command |}
                eq_refl) as [Hthrow _].
    destruct (Hthrow eq_refl) as (e & -> & He).
    f_equal. exact (He [] eq_refl).
  - destruct (required_enforced example_message example_client
                {| heap_options := [JStr "x"]; heap_this := required_a_command |}
                eq_refl) as [_ Hpost].
    refine (Hpost eq_refl _ _ eq_refl). intros Hsc. discriminate Hsc.
Defined.

(** C3: for a chat-input command whose top-level options are all
    subcommands or subcommand groups, called with a first token [first]
    (a string) and the tokens [rest]: if no top-level option is named
    [first] the call throws (the type error of reading [subCommand.type]
    on [undefined]); otherwise, with [sc] the first top-level
    option of that name, [rest] is walked against the nested options of
    [sc] and, unless the walk throws or a required value is missing, the
    posted option list is the single node [{type, name, options}] with the
    type code and name of [sc] around the entries of the walk. *)
Theorem subcommand_routing `{JsNumber} message client (h : Heap)
    (first : string) (rest : list JsVal) :
  let this := heap_this h in
  tag_is (cmd_type this) CommandType.CHAT_INPUT = true →
  cmd_options this ≠ [] →
  forallb (λ o, is_sub (opt_type o)) (cmd_options this) = true →
  heap_options h = JStr first :: rest →
  match List.find (λ o, String.eqb (opt_name o) first) (cmd_options this) with
  | None =>
      (sendSlashCommand message client h).1 = Throw (UndefinedTypeError "type")
  | Some sc =>
      match walk true (opt_options sc) rest with
      | Normal ds =>
          (sendSlashCommand message client h).1 =
            if is_required (opt_options sc ≫= (λ os, os !! length rest))
            then Throw RequiredMissingError
            else Normal (Posted (slash_body this message client
                                   [Node (enum_get (opt_type sc))
                                      (opt_name sc) ds]))
      | Throw e => (sendSlashCommand message client h).1 = Throw e
      | OutOfFuel => False
      end
  end.
Proof.
  intros this Hkind Hne Hall Htok. subst this.
  rewrite sendSlashCommand_unfold. cbv zeta. rewrite Hkind. simpl.
  set (this := heap_this h) in *.
  assert (Hsc : subCommandCheck this = true).
  { unfold subCommandCheck. destruct (cmd_options this) as [|o os]; [done|].
    simpl in *. apply andb_true_iff in Hall as [-> _]. done. }
  rewrite Hsc. unfold select. rewrite Htok. simpl.
  assert (Hfind :
    List.find (λ option, String.eqb first (opt_name option)) (cmd_options this)
    = List.find (λ o, String.eqb (opt_name o) first) (cmd_options this)).
  { clear. induction (cmd_options this) as [|o os IH]; simpl; [done|].
    rewrite (String.eqb_sym first). by rewrite IH. }
  rewrite Hfind. clear Hfind.
  destruct (List.find _ (cmd_options this)) as [sc|]; simpl; [|done].
  unfold encode_tokens. rewrite ?bool_decide_eq_true_2 by eauto.
  pose proof (walk_total true (opt_options sc) rest).
  destruct (walk true (opt_options sc) rest); done.
Qed.

(** The example of C3: the tokens "add", "12345" give
    [options: [{type: SUB_COMMAND, name: "add", options: [{type: STRING,
    name: "role", value: "12345"}]}]]; the tokens "bogus", "12345"
    throw. *)
Lemma subcommand_routing_witness :
  (sendSlashCommand example_message example_client
     {| heap_options := [JStr "add"; JStr "12345"];
        heap_this := role_command |}).1
  = Normal (Posted
              (slash_body role_command example_message example_client
                 [Node (Code 1) "add"
                    [{| entry_type := Code 3; entry_name := "role";
                        entry_value := JStr "12345" |}]]))
  ∧ (sendSlashCommand example_message example_client
       {| heap_options := [JStr "bogus"; JStr "12345"];
          heap_this := role_command |}).1
    = Throw (UndefinedTypeError "type").
Proof.
  split.
  - exact (subcommand_routing example_message example_client
             {| heap_options := [JStr "add"; JStr "12345"];
                heap_this := role_command |}
             "add" [JStr "12345"] eq_refl ltac:(discriminate) eq_refl eq_refl).
  - exact (subcommand_routing example_message example_client
             {| heap_options := [JStr "bogus"; JStr "12345"];
                heap_this := role_command |}
             "bogus" [JStr "12345"] eq_refl ltac:(discriminate) eq_refl eq_refl).
Defined.

(** C9, as the code has it: a call of [sendSlashCommand] leaves the
    command [this], with its option tree, as it was; it leaves the token
    array as it was, except in the subcommand-routed path of a chat-input
    command, where [options.shift()] removes the first token from the
    caller's array. *)
Theorem sendSlashCommand_frame `{JsNumber} message client (h : Heap) :
  let h' := (sendSlashCommand message client h).2 in
  heap_this h' = heap_this h
  ∧ heap_options h' =
      if tag_is (cmd_type (heap_this h)) CommandType.CHAT_INPUT
         && subCommandCheck (heap_this h)
      then tail (heap_options h)
      else heap_options h.
Proof.
  simpl. rewrite sendSlashCommand_unfold. simpl.
  destruct (tag_is _ _); simpl; [|done].
  destruct (subCommandCheck _); simpl; [|done].
  by destruct (select _ _).
Qed.

(** C9 as stated fails: after encoding the tokens "add", "12345" against
    the command with the subcommands "add" and "remove", the caller's
    array holds "12345" only. *)
Lemma sendSlashCommand_shifts_tokens :
  heap_options (sendSlashCommand example_message example_client role_heap).2
  = [JStr "12345"]
  ∧ heap_options (sendSlashCommand example_message example_client role_heap).2
    ≠ heap_options role_heap.
Proof. split; [reflexivity|discriminate]. Qed.

Section EmptyToken.
Context `{JsNumber}.

(** In the subcommand path the walk passes over an empty token and the
    option at its position: it gives what it gives without the two. *)
Lemma walk_skips_empty (pre post : list JsVal) (os1 os2 : list OptionData)
    (o : OptionData) :
  length pre = length os1 →
  walk true (Some (os1 ++ o :: os2)) (pre ++ JStr "" :: post)
  = walk true (Some (os1 ++ os2)) (pre ++ post).
Proof.
  revert os1. induction pre as [|tok pre IH]; intros [|a os1] Hlen;
    simplify_eq/=; [done|].
  destruct tok; try done.
  destruct (String.eqb s ""); simpl; [by apply IH|].
  destruct (make_data a s); try done. by rewrite IH.
Qed.

(** The walk of as many tokens as there are options, followed by more of
    both: the entries of the first part, then those of the second; the
    first throw is the one that is seen. *)
Lemma walk_app sc (pre post : list JsVal) (os1 os2 : list OptionData) :
  length pre = length os1 →
  walk sc (Some (os1 ++ os2)) (pre ++ post)
  = match walk sc (Some os1) pre with
    | Normal before => cmap (app before) (walk sc (Some os2) post)
    | Throw e => Throw e
    | OutOfFuel => OutOfFuel
    end.
Proof.
  revert os1. induction pre as [|tok pre IH]; intros [|a os1] Hlen;
    simplify_eq/=.
  - by destruct (walk sc (Some os2) post).
  - destruct tok; try done.
    destruct (sc && _); [by apply IH|].
    destruct (make_data a s); try done.
    rewrite IH by done.
    destruct (walk sc (Some os1) pre); simpl; try done.
    by destruct (walk sc (Some os2) post).
Qed.

End EmptyToken.

(** C10: in the subcommand-routed path, an empty-string token is passed
    over together with the option [o] at its position, required or not.
    With [sc] the selected subcommand, [os1 ++ o :: os2] its nested
    options, [pre] the tokens for [os1] and [post] the tokens after the
    empty one: the call throws only what the tokens of [pre] or of [post]
    throw against [os1] or [os2], or the missing-value error when the
    option after the last token is required; otherwise it posts the node
    of [sc] whose entries are those of [pre] followed by those of [post].
    No entry is built and nothing is thrown for the position of [o]. *)
Theorem empty_token_skipped `{JsNumber} message client
    (this : ApplicationCommand) (first : JsVal) (pre post : list JsVal)
    (sc : OptionData) (os1 os2 : list OptionData) (o : OptionData) :
  tag_is (cmd_type this) CommandType.CHAT_INPUT = true →
  subCommandCheck this = true →
  select this (first :: pre ++ JStr "" :: post) = Some sc →
  opt_options sc = Some (os1 ++ o :: os2)%list →
  length pre = length os1 →
  let call :=
    (sendSlashCommand message client
       {| heap_options := first :: (pre ++ JStr "" :: post)%list;
          heap_this := this |}).1 in
  match walk true (Some os1) pre, walk true (Some os2) post with
  | Normal before, Normal after =>
      call =
        if is_required (os2 !! length post)
        then Throw RequiredMissingError
        else Normal (Posted (slash_body this message client
                               [Node (enum_get (opt_type sc)) (opt_name sc)
                                  (before ++ after)%list]))
  | Throw e, _ => call = Throw e
  | Normal _, Throw e => call = Throw e
  | _, _ => False
  end.
Proof.
  intros Hkind Hsc Hsel Hnested Hlen call. subst call.
  rewrite sendSlashCommand_unfold. cbv zeta.
  cbn [heap_this heap_options tail]. rewrite Hkind, Hsc, Hsel.
  cbn [negb fst]. unfold encode_tokens. rewrite Hnested.
  rewrite walk_skips_empty by done. rewrite walk_app by done.
  cbn [mbind option_bind].
  replace ((os1 ++ o :: os2)%list !! length (pre ++ JStr "" :: post)%list)
    with (os2 !! length post).
  2:{ rewrite length_app. cbn [length].
      rewrite lookup_app_r by lia.
      replace (length pre + S (length post) - length os1)%nat
        with (S (length post)) by lia.
      done. }
  pose proof (walk_total true (Some os1) pre) as Hpre.
  pose proof (walk_total true (Some os2) post) as Hpost.
  destruct (walk true (Some os1) pre) as [before|e|]; [|done|done].
  destruct (walk true (Some os2) post) as [after|e|]; [|done|done].
  cbn [cmap]. by destruct (is_required _).
Qed.

(** The example of C10, on the command whose subcommand "add" has the
    required option "role" and then the option "reason": the tokens "add",
    "", "late" post the node of "add" with the entry of "reason" only, and
    the tokens "add", "" post it with no entry. *)
Lemma empty_token_skipped_witness :
  (sendSlashCommand example_message example_client
     {| heap_options := [JStr "add"; JStr ""; JStr "late"];
        heap_this := role_reason_command |}).1
  = Normal (Posted
              (slash_body role_reason_command example_message example_client
                 [Node (Code 1) "add"
                    [{| entry_type := Code 3; entry_name := "reason";
                        entry_value := JStr "late" |}]]))
  ∧ (sendSlashCommand example_message example_client
       {| heap_options := [JStr "add"; JStr ""];
          heap_this := role_reason_command |}).1
    = Normal (Posted
                (slash_body role_reason_command example_message example_client
                   [Node (Code 1) "add" []])).
Proof.
  split.
  - exact (empty_token_skipped example_message example_client
             role_reason_command (JStr "add") [] [JStr "late"]
             (sub_command "add"
                (Some [string_option "role" (Some true);
                       string_option "reason" (Some false)]))
             [] [string_option "reason" (Some false)]
             (string_option "role" (Some true))
             eq_refl eq_refl eq_refl eq_refl eq_refl).
  - exact (empty_token_skipped example_message example_client
             role_reason_command (JStr "add") [] []
             (sub_command "add"
                (Some [string_option "role" (Some true);
                       string_option "reason" (Some false)]))
             [] [string_option "reason" (Some false)]
             (string_option "role" (Some true))
             eq_refl eq_refl eq_refl eq_refl eq_refl).
Defined.

(** ** Choice resolution *)

Section Choices.
Context `{JsNumber}.

(** X15: for an option with a non-empty choice list: a token that is
    neither a choice name nor loosely equal to a choice value throws the
    error that lists the choices; otherwise the name match is preferred to
    the value match, and the entry carries the resolved choice's value when
    that value is truthy. *)
Lemma make_data_choices (opt : OptionData) (choices : list Choice)
    (value : string) :
  opt_choices opt = Some choices → choices ≠ [] →
  match List.find (λ c, String.eqb (choice_name c) value) choices,
        List.find (λ c, loose_eq_string (choice_value c) value) choices with
  | None, None =>
      make_data opt value
      = Throw (InvalidChoiceError value (list_of_choices choices))
  | Some c, _ | None, Some c =>
      ∃ data, make_data opt value = Normal data
              ∧ entry_type data = enum_get (opt_type opt)
              ∧ entry_name data = opt_name opt
              ∧ (truthy (choice_value c) = true →
                 entry_value data = choice_value c)
              ∧ (truthy (choice_value c) = false →
                 entry_value data = coerce (opt_type opt) value)
  end.
Proof.
  intros Hc Hne. unfold make_data, find_choice. rewrite Hc.
  destruct choices as [|c0 choices]; [done|]. simpl length. simpl (0 <? _)%nat.
  destruct (List.find (λ c, String.eqb (choice_name c) value) (c0 :: choices))
    as [c|]; [|destruct (List.find _ (c0 :: choices)) as [c|]; [|done]];
    (eexists; split; [done|]; simpl; unfold js_or;
     repeat split; by intros ->).
Qed.

End Choices.

(** The value fallback of C2: the token "5" is no choice name of
    [{name: "five", value: "5"}] and resolves through the value. *)
Example value_fallback :
  make_data
    (choice_option OptionType.STRING "s"
       [{| choice_name := "five"; choice_value := JStr "5" |}]) "5"
  = Normal {| entry_type := Code 3; entry_name := "s";
              entry_value := JStr "5" |}.
Proof. reflexivity. Qed.

(** A token that matches no choice throws, with the list of choices. *)
Example no_choice_throws :
  make_data (choice_option OptionType.INTEGER "n" number_choices) "six"
  = Throw (InvalidChoiceError "six"
             [(1%nat, "zero", JNum (Int 0)); (2%nat, "five", JNum (Int 5))]).
Proof. reflexivity. Qed.

(** C2, at the choice [{name: "zero", value: 0}]: the token "zero" resolves
    to that choice by its name, but the emitted entry does not carry the
    choice's value [0]: [choice?.value || ...] takes [0] for a missing
    choice and emits [Number("zero")], which is [NaN].  The choice
    [{name: "five", value: 5}] of the same option is emitted as it is. *)
Theorem falsy_choice_value_not_emitted :
  find_choice number_choices "zero"
  = Some {| choice_name := "zero"; choice_value := JNum (Int 0) |}
  ∧ (sendSlashCommand example_message example_client
       {| heap_options := [JStr "zero"]; heap_this := zero_choice_command |}).1
    = Normal (Posted
                (slash_body zero_choice_command example_message example_client
                   [Leaf {| entry_type := Code 4; entry_name := "n";
                            entry_value := JNum NaN |}]))
  ∧ (sendSlashCommand example_message example_client
       {| heap_options := [JStr "five"]; heap_this := zero_choice_command |}).1
    = Normal (Posted
                (slash_body zero_choice_command example_message example_client
                   [Leaf {| entry_type := Code 4; entry_name := "n";
                            entry_value := JNum (Int 5) |}])).
Proof. repeat split. Qed.

(** ** Schema equality engine *)

Section MapFacts.
Context {V : Type}.

Lemma js_Map_foldl_miss (entries : list (string * V)) (m : gmap string V) k :
  k ∉ entries.*1 →
  foldl (λ m kv, <[kv.1 := kv.2]> m) m entries !! k = m !! k.
Proof.
  revert m. induction entries as [|[k' v'] entries IH]; intros m Hk; simpl;
    [done|].
  apply not_elem_of_cons in Hk as [Hne Hk].
  rewrite IH by done. by apply lookup_insert_ne.
Qed.

(** With distinct keys, [get] gives the value set for the key. *)
Lemma js_Map_lookup (entries : list (string * V)) k v :
  NoDup entries.*1 → (k, v) ∈ entries → js_Map entries !! k = Some v.
Proof.
  unfold js_Map. generalize (∅ : gmap string V).
  induction entries as [|[k' v'] entries IH]; intros m Hnd Hin;
    [by apply elem_of_nil in Hin|].
  simpl in *. apply NoDup_cons in Hnd as [Hk' Hnd].
  apply elem_of_cons in Hin as [[= -> ->]|Hin].
  - rewrite js_Map_foldl_miss by done. apply lookup_insert_eq.
  - by apply IH.
Qed.

End MapFacts.

Section EveryFacts.
Context {A : Type} (f : A → nat → bool).

Lemma every_from_true (i : nat) (l : list A) :
  (∀ j x, l !! j = Some x → f x (i + j) = true) → every_from f i l = true.
Proof.
  revert i. induction l as [|x l IH]; intros i Hall; simpl; [done|].
  rewrite <- (Nat.add_0_r i) at 1. rewrite (Hall 0%nat x) by done.
  apply IH. intros j y Hj. rewrite Nat.add_succ_comm. by apply Hall.
Qed.

Lemma every_from_false (i j : nat) (l : list A) (x : A) :
  l !! j = Some x → f x (i + j) = false → every_from f i l = false.
Proof.
  revert i j. induction l as [|y l IH]; intros i j Hj Hf; [done|].
  simpl. destruct j as [|j]; simpl in *.
  - simplify_eq. rewrite Nat.add_0_r in Hf. by rewrite Hf.
  - destruct (f y i); [|done]. apply (IH (S i) j); [done|].
    by rewrite Nat.add_succ_comm.
Qed.

End EveryFacts.

Section NestedInduction.
Context `{JsNumber} (P : OptionData → Prop).
Hypothesis step :
  ∀ o, (∀ os, opt_options o = Some os → Forall P os) → P o.

(** Induction on an option tree: the nested options of a node satisfy
    the property. *)
Lemma OptionData_nested_ind : ∀ o, P o.
Proof.
  fix IH 1. intros o. apply step.
  destruct o as [? ? ? ? ? ? options ? ? ? ? ? ?]; simpl.
  intros os Hos. destruct options as [l|]; [|discriminate].
  replace os with l by congruence. clear Hos.
  induction l as [|x l IHl]; constructor; [apply IH|apply IHl].
Qed.

End NestedInduction.

Section EqualityFacts.
Context `{JsNumber}.

Lemma _optionEquals_unfold (existing option : OptionData) (strict : bool) :
  _optionEquals existing option strict =
    if properties_differ existing option then false
    else if match opt_choices existing with
            | Some choices =>
                negb (choicesEqual choices (default [] (opt_choices option)) strict)
            | None => false
            end
    then false
    else if match opt_channelTypes existing with
            | Some channelTypes =>
                negb (channelTypesIncluded channelTypes
                        (default [] (nullish (opt_channelTypes option)
                                       (opt_channel_types option))))
            | None => false
            end
    then false
    else match opt_options existing with
         | Some options =>
             optionsEqual options (default [] (opt_options option)) strict
         | None => true
         end.
Proof. by destruct existing. Qed.

(** Options with different names are not equal. *)
Lemma _optionEquals_names (existing option : OptionData) (strict : bool) :
  opt_name option ≠ opt_name existing →
  _optionEquals existing option strict = false.
Proof.
  intros Hne. rewrite _optionEquals_unfold. unfold properties_differ.
  apply String.eqb_neq in Hne. by rewrite Hne.
Qed.

Lemma opt_eqb_refl {A} (eqb : A → A → bool) (a : option A) :
  (∀ x, a = Some x → eqb x x = true) → opt_eqb eqb a a = true.
Proof. destruct a; simpl; auto. Qed.

Lemma choicesEqual_refl (choices : list Choice) (strict : bool) :
  wf_choices choices = true → choicesEqual choices choices strict = true.
Proof.
  unfold wf_choices. intros [Hnd Hval]%andb_true_iff.
  apply bool_decide_eq_true in Hnd. rewrite forallb_forall in Hval.
  unfold choicesEqual. destruct strict.
  - apply every_from_true. intros j c Hj. simpl. rewrite Hj.
    rewrite String.eqb_refl. simpl. apply Hval.
    apply list_elem_of_In, list_elem_of_lookup. eauto.
  - apply forallb_forall. intros c Hc.
    rewrite (js_Map_lookup _ (choice_name c) c).
    + by apply Hval.
    + rewrite <- list_fmap_compose. exact Hnd.
    + apply list_elem_of_In in Hc.
      apply (list_elem_of_fmap_2 (λ choice, (choice_name choice, choice)) _ _ Hc).
Qed.

Lemma channelTypesIncluded_refl (types : list (tag ChannelType.t)) :
  forallb (λ t, negb (is_code t)) types = true →
  channelTypesIncluded types types = true.
Proof.
  intros Hsym. unfold channelTypesIncluded.
  rewrite forallb_forall in Hsym |- *. intros t Ht.
  apply bool_decide_eq_true, list_elem_of_In, in_map_iff.
  exists t. split; [|done]. specialize (Hsym t Ht).
  by destruct (is_code t).
Qed.

(** [optionsEqual] of a list with a rearrangement of itself, given that
    each option equals itself and that names are unique. *)
Lemma optionsEqual_with_perm (eq : OptionData → OptionData → bool → bool)
    (existing options : list OptionData) :
  NoDup (opt_name <$> existing) →
  options ≡ₚ existing →
  Forall (λ o, eq o o false = true) existing →
  optionsEqual_with eq existing options false = true.
Proof.
  intros Hnd Hperm Hrefl. unfold optionsEqual_with.
  rewrite (Permutation_length Hperm), Nat.eqb_refl. simpl.
  apply forallb_forall. intros o Ho. apply list_elem_of_In in Ho.
  rewrite (js_Map_lookup _ (opt_name o) o).
  - rewrite List.Forall_forall in Hrefl. apply Hrefl.
    by apply list_elem_of_In.
  - rewrite <- list_fmap_compose.
    change (NoDup (opt_name <$> options)). by rewrite Hperm.
  - apply (list_elem_of_fmap_2 (λ option, (opt_name option, option))).
    by rewrite Hperm.
Qed.

Lemma optionsEqual_with_strict_refl (eq : OptionData → OptionData → bool → bool)
    (existing : list OptionData) :
  Forall (λ o, eq o o true = true) existing →
  optionsEqual_with eq existing existing true = true.
Proof.
  intros Hrefl. unfold optionsEqual_with. rewrite Nat.eqb_refl. simpl.
  apply every_from_true. intros j o Hj. simpl. rewrite Hj.
  rewrite List.Forall_forall in Hrefl. apply Hrefl.
  apply list_elem_of_In, list_elem_of_lookup. eauto.
Qed.

(** A well-formed option equals itself, in both orders of comparison. *)
Lemma _optionEquals_refl (o : OptionData) (strict : bool) :
  wf_option o = true → _optionEquals o o strict = true.
Proof.
  revert strict. induction o as [o IH] using OptionData_nested_ind.
  intros strict Hwf. rewrite _optionEquals_unfold.
  destruct o as [type name description required autocomplete choices options
                   channelTypes channel_types minValue min_value maxValue
                   max_value].
  simpl in Hwf. simpl in IH. rewrite !andb_true_iff in Hwf.
  destruct Hwf as (((((((((Htype & Hreq) & Hcs) & Hts) & Hsnake) & Hmin)
                       & Hmax) & Hbmin) & Hbmax) & Hos).
  destruct type as [type| |]; try done.
  destruct channel_types; try done.
  destruct min_value; try done. destruct max_value; try done.
  assert (Hdiff : properties_differ
            (mkOption (Name type) name description required autocomplete
               choices options channelTypes None minValue None maxValue None)
            (mkOption (Name type) name description required autocomplete
               choices options channelTypes None minValue None maxValue None)
          = false).
  { unfold properties_differ, tag_eqb. simpl.
    rewrite String.eqb_refl, bool_decide_eq_true_2 by done. simpl.
    rewrite !orb_false_iff. repeat split; apply negb_false_iff.
    - apply opt_eqb_refl. intros. apply String.eqb_refl.
    - apply opt_eqb_refl. intros. by destruct x.
    - destruct required as [[]|]; try done.
      simpl in Hreq. unfold required_default, string_type. simpl is_name.
      cbv iota. by rewrite Hreq.
    - apply opt_eqb_refl. intros. apply Nat.eqb_refl.
    - apply opt_eqb_refl. intros. apply Nat.eqb_refl.
    - destruct channelTypes; simpl; [apply Nat.eqb_refl|done].
    - destruct minValue; simpl in *; done.
    - destruct maxValue; simpl in *; done. }
  rewrite Hdiff. simpl.
  assert (Hchoices :
    match choices with
    | Some cs => negb (choicesEqual cs (default [] choices) strict)
    | None => false
    end = false).
  { destruct choices as [cs|]; [|done]. simpl.
    by rewrite choicesEqual_refl. }
  rewrite Hchoices.
  assert (Htypes :
    match channelTypes with
    | Some ts =>
        negb (channelTypesIncluded ts
                (default [] (nullish channelTypes None)))
    | None => false
    end = false).
  { destruct channelTypes as [ts|]; [|done]. simpl.
    by rewrite channelTypesIncluded_refl. }
  rewrite Htypes.
  destruct options as [os|]; [|done]. simpl.
  apply andb_true_iff in Hos as [Hnd Hwf].
  apply bool_decide_eq_true in Hnd. rewrite forallb_forall in Hwf.
  specialize (IH os eq_refl). rewrite List.Forall_forall in IH.
  unfold optionsEqual. destruct strict.
  - apply optionsEqual_with_strict_refl, List.Forall_forall.
    intros o Ho. apply IH; [done|]. by apply Hwf.
  - apply optionsEqual_with_perm; [done..|]. apply List.Forall_forall.
    intros o Ho. apply IH; [done|]. by apply Hwf.
Qed.

End EqualityFacts.

Section CommandEquality.
Context `{JsNumber}.

Lemma every_from_inv {A} (f : A → nat → bool) (i : nat) (l : list A) :
  every_from f i l = true → ∀ j x, l !! j = Some x → f x (i + j)%nat = true.
Proof.
  revert i. induction l as [|y l IH]; intros i Hall j x Hj; [done|].
  simpl in Hall. destruct (f y i) eqn:Hy; [|done].
  destruct j as [|j]; simpl in Hj.
  - simplify_eq. by rewrite Nat.add_0_r.
  - rewrite <- Nat.add_succ_comm. by apply IH.
Qed.

(** Under the strict order, equal option lists have the same names at the
    same positions. *)
Lemma optionsEqual_strict_names (existing options : list OptionData) :
  optionsEqual existing options true = true →
  opt_name <$> options = opt_name <$> existing.
Proof.
  unfold optionsEqual, optionsEqual_with.
  destruct (length existing =? length options)%nat eqn:Hlen; [|done].
  apply Nat.eqb_eq in Hlen. simpl. intros Hall.
  apply list_eq_same_length with (length existing);
    rewrite ?length_fmap; [done..|].
  intros i x y Hi Hx Hy.
  apply list_lookup_fmap_Some in Hx as (o' & -> & Ho').
  apply list_lookup_fmap_Some in Hy as (o & -> & Ho).
  pose proof (every_from_inv _ _ _ Hall i o Ho) as Heq. simpl in Heq.
  rewrite Ho' in Heq.
  destruct (decide (opt_name o' = opt_name o)) as [|Hne]; [done|].
  by rewrite _optionEquals_names in Heq.
Qed.

Lemma NoDup_fmap_inj {A B} (f : A → B) (l : list A) (a b : A) :
  NoDup (f <$> l) → a ∈ l → b ∈ l → f a = f b → a = b.
Proof.
  induction l as [|x l IH]; intros Hnd Ha Hb Hf;
    [by apply elem_of_nil in Ha|].
  simpl in Hnd. apply NoDup_cons in Hnd as [Hx Hnd].
  apply elem_of_cons in Ha as [->|Ha]; apply elem_of_cons in Hb as [->|Hb];
    try done.
  - exfalso. apply Hx. rewrite Hf. by apply list_elem_of_fmap_2.
  - exfalso. apply Hx. rewrite <- Hf. by apply list_elem_of_fmap_2.
  - by apply IH.
Qed.

(** A rearrangement that keeps every name in place keeps every option in
    place, when names are unique. *)
Lemma Permutation_same_names (l l' : list OptionData) :
  l' ≡ₚ l → NoDup (opt_name <$> l) →
  opt_name <$> l' = opt_name <$> l → l' = l.
Proof.
  intros Hperm Hnd Hnames.
  apply list_eq_same_length with (length l);
    [done|by rewrite (Permutation_length Hperm)|].
  intros i b a Hi Hb Ha.
  apply (NoDup_fmap_inj opt_name l); [done| | |].
  - rewrite <- Hperm. apply list_elem_of_lookup. eauto.
  - apply list_elem_of_lookup. eauto.
  - assert ((opt_name <$> l') !! i = (opt_name <$> l) !! i) as Hi'
      by by rewrite Hnames.
    rewrite !list_lookup_fmap, Ha, Hb in Hi'. by injection Hi'.
Qed.

(** The top-level tests of [equals] pass between a well-formed command and
    itself with its options replaced by as many options. *)
Lemma equals_same_header (c : ApplicationCommand) (options : list OptionData)
    (strict : bool) :
  wf_command c = true → length options = length (cmd_options c) →
  equals c (as_data (with_options c options)) strict
  = optionsEqual (cmd_options c) options strict.
Proof.
  unfold wf_command. rewrite !andb_true_iff.
  intros [[[Htype Hflag] _] _] Hlen.
  unfold equals, as_data, with_options. simpl.
  rewrite !String.eqb_refl, andb_false_r, Hlen, Nat.eqb_refl. simpl.
  destruct (cmd_description c) as [d|], (cmd_version c) as [v|];
    rewrite ?String.eqb_refl; simpl;
    (destruct (cmd_type c) as [k|n|]; simpl in *; try done;
     unfold tag_eqb; rewrite ?bool_decide_eq_true_2 by done; simpl;
     by destruct (cmd_defaultPermission c) as [[]|]).
Qed.

(** A list of well-formed options with distinct names equals itself. *)
Lemma optionsEqual_refl (options : list OptionData) (strict : bool) :
  NoDup (opt_name <$> options) → forallb wf_option options = true →
  optionsEqual options options strict = true.
Proof.
  intros Hnd Hall. rewrite forallb_forall in Hall.
  unfold optionsEqual. destruct strict.
  - apply optionsEqual_with_strict_refl, List.Forall_forall.
    intros o Ho. apply _optionEquals_refl. by apply Hall.
  - apply optionsEqual_with_perm; [done..|]. apply List.Forall_forall.
    intros o Ho. apply _optionEquals_refl. by apply Hall.
Qed.

Lemma wf_command_options (c : ApplicationCommand) :
  wf_command c = true →
  NoDup (opt_name <$> cmd_options c) ∧ forallb wf_option (cmd_options c) = true.
Proof.
  unfold wf_command. rewrite !andb_true_iff. intros [[_ Hnd] Hall].
  split; [by apply bool_decide_eq_true in Hnd|done].
Qed.

Lemma with_options_same (c : ApplicationCommand) :
  with_options c (cmd_options c) = c.
Proof. by destruct c. Qed.

End CommandEquality.

Section RoundTrip.
Context `{JsNumber}.

Lemma valid_code_round {A} `{JsEnumLaws A} (t : tag A) :
  valid_code t = true →
  ∃ a, enum_get t = Name a ∧ enum_get (Name a) = t.
Proof.
  destruct t as [|n|]; try done. simpl.
  destruct (of_code n) as [a|] eqn:Hn; [|done]. intros _.
  exists a. split; [done|]. f_equal. by apply code_of_code.
Qed.

Lemma channel_types_round (ts : list (tag ChannelType.t)) :
  forallb valid_code ts = true →
  List.map (λ type, if is_name type then enum_get type else type)
    (List.map enum_get ts) = ts.
Proof.
  induction ts as [|t ts IH]; simpl; [done|].
  intros [Ht Hts]%andb_true_iff. rewrite IH by done. f_equal.
  destruct (valid_code_round t Ht) as (a & -> & Ha). exact Ha.
Qed.

Lemma nullish_None_r {A} (a : option A) : nullish a None = a.
Proof. by destruct a. Qed.

Lemma nullish_idem {A} (a b : option A) : nullish (nullish a b) b = nullish a b.
Proof. by destruct a, b. Qed.

End RoundTrip.

Section Constructor.
Context `{JsNumber}.

Lemma transformOption_name (o : OptionData) (received : bool) :
  opt_name (transformOption o received) = opt_name o.
Proof. by destruct o. Qed.

(** The model shape of a well-formed wire option is a well-formed
    option. *)
Lemma transformOption_received_wf (w : OptionData) :
  wf_wire w = true → wf_wire_values w = true →
  wf_option (transformOption w true) = true.
Proof.
  induction w as [w IH] using OptionData_nested_ind. intros Hwire Hvalues.
  destruct w as [type name description required autocomplete choices options
                   channelTypes channel_types minValue min_value maxValue
                   max_value].
  simpl in Hwire, Hvalues, IH.
  rewrite !andb_true_iff in Hwire. rewrite !andb_true_iff in Hvalues.
  destruct Hwire as (((((Htype & Hct) & Hmin) & Hmax) & Hcts) & Hos).
  destruct Hvalues as (((Hcs & Hbmin) & Hbmax) & Hvs).
  destruct channelTypes, minValue, maxValue; try done.
  destruct (valid_code_round type Htype) as (a & Ha & _).
  destruct type as [|n|]; try done. simpl in Ha.
  simpl. unfold string_type. simpl. rewrite !Ha. simpl.
  rewrite !andb_true_iff. repeat split; try done.
  - destruct required; simpl; [done|]. unfold required_default.
    by destruct (is_sub (Name a)).
  - destruct channel_types as [ts|]; simpl; [|done].
    rewrite forallb_forall in Hcts |- *. intros t [t' [<- Ht']]%in_map_iff.
    by destruct (valid_code_round t' (Hcts t' Ht')) as (? & -> & _).
  - destruct options as [os|]; [|done].
    apply andb_true_iff in Hvs as [Hnd Hvs]. apply andb_true_iff. split.
    + apply bool_decide_eq_true. apply bool_decide_eq_true in Hnd.
      rewrite <- list_fmap_compose.
      erewrite list_fmap_ext; [exact Hnd|].
      intros i o _. apply transformOption_name.
    + specialize (IH os eq_refl). rewrite List.Forall_forall in IH.
      rewrite forallb_forall in Hos, Hvs |- *.
      intros o' [o [<- Ho]]%in_map_iff. apply IH; auto.
Qed.

(** The command the constructor builds from well-formed data is
    well-formed. *)
Lemma construct_wf (data : APIApplicationCommand) :
  wf_api_command data = true → wf_command (construct data) = true.
Proof.
  unfold wf_api_command, wf_command. rewrite !andb_true_iff.
  intros [[Htype Hflag] Hos]. simpl. repeat split; try done.
  - by rewrite enum_get_not_code.
  - destruct (api_options data) as [os|];
      [|apply bool_decide_eq_true; constructor].
    rewrite !andb_true_iff in Hos. destruct Hos as [[Hnd _] _].
    apply bool_decide_eq_true. apply bool_decide_eq_true in Hnd.
    rewrite <- list_fmap_compose.
    erewrite list_fmap_ext; [exact Hnd|].
    intros i o _. apply transformOption_name.
  - destruct (api_options data) as [os|]; [|done].
    rewrite !andb_true_iff in Hos. destruct Hos as [[_ Hwire] Hvalues].
    rewrite forallb_forall in Hwire, Hvalues |- *.
    intros o' [o [<- Ho]]%in_map_iff.
    apply transformOption_received_wf; auto.
Qed.

End Constructor.

(** C7: a well-formed command equals itself, whether the order of options
    and choices is enforced or not. *)
Theorem equals_reflexive `{JsNumber} (c : ApplicationCommand) (strictOrder : bool) :
  wf_command c = true → equals c (as_data c) strictOrder = true.
Proof.
  intros Hwf. rewrite <- (with_options_same c) at 2.
  rewrite equals_same_header by done.
  destruct (wf_command_options c Hwf) as [Hnd Hall].
  by apply optionsEqual_refl.
Qed.

Lemma equals_reflexive_witness :
  wf_api_command api_example = true
  ∧ equals (construct api_example) (as_data (construct api_example)) true = true
  ∧ equals (construct api_example) (as_data (construct api_example)) false
    = true.
Proof.
  split; [reflexivity|].
  split; apply (equals_reflexive (construct api_example)); reflexivity.
Defined.

(** C6: for a well-formed command [c] with uniquely named top-level
    options and a rearrangement [options'] of them, [equals] holds between
    [c] and [c] with [options'] when the order is not enforced, and fails
    when it is enforced and [options'] is not in the order of [c]. *)
Theorem equals_permutation `{JsNumber} (c : ApplicationCommand)
    (options' : list OptionData) :
  wf_command c = true →
  NoDup (opt_name <$> cmd_options c) →
  options' ≡ₚ cmd_options c →
  equals c (as_data (with_options c options')) false = true
  ∧ (options' ≠ cmd_options c →
     equals c (as_data (with_options c options')) true = false).
Proof.
  intros Hwf Hnd Hperm.
  rewrite !equals_same_header by (done || by apply Permutation_length).
  split.
  - destruct (wf_command_options c Hwf) as [_ Hall].
    rewrite forallb_forall in Hall.
    apply optionsEqual_with_perm; [done..|]. apply List.Forall_forall.
    intros o Ho. apply _optionEquals_refl. by apply Hall.
  - intros Hne.
    destruct (optionsEqual (cmd_options c) options' true) eqn:Heq; [|done].
    destruct Hne. apply Permutation_same_names; [done..|].
    by apply optionsEqual_strict_names.
Qed.

(** The command of the routing example against itself with its two
    subcommands swapped. *)
Lemma equals_permutation_witness :
  equals role_command (as_data (with_options role_command swapped_options))
    false = true
  ∧ equals role_command (as_data (with_options role_command swapped_options))
      true = false.
Proof.
  destruct (equals_permutation role_command swapped_options)
    as [Hloose Hstrict].
  - reflexivity.
  - exact (bool_decide_eq_true_1
             (NoDup (opt_name <$> cmd_options role_command)) eq_refl).
  - apply Permutation_swap.
  - split; [exact Hloose|]. apply Hstrict. discriminate.
Defined.

Section DefaultPermission.
Context `{JsNumber}.

(** [this.defaultPermission] is compared as it is: when it is absent the
    commands are unequal, whatever the argument. *)
Lemma equals_absent_receiver (c : ApplicationCommand) (d : CommandData)
    (strict : bool) :
  cmd_defaultPermission c = None → equals c d strict = false.
Proof.
  intros Hflag. unfold equals. rewrite Hflag. simpl.
  rewrite orb_true_r. by case_match.
Qed.

(** The argument's flag is defaulted: absent, it reads [true]. *)
Lemma equals_absent_argument (c : ApplicationCommand) (strict : bool) :
  cmd_defaultPermission c = Some true →
  equals c (without_flag (as_data c)) strict = equals c (as_data c) strict.
Proof. intros Hflag. unfold equals. simpl. by rewrite Hflag. Qed.

End DefaultPermission.

(** C8, as the code has it: the default-enabled flag of the argument is
    read as [true] when absent, the flag of the receiver [this] is not.
    For a well-formed command whose flag is [true]: compared with the same
    command without the flag as argument, [equals] holds; the same command
    without the flag, as receiver, does not equal it. *)
Theorem default_permission_argument_only `{JsNumber}
    (c : ApplicationCommand) (strictOrder : bool) :
  wf_command c = true →
  cmd_defaultPermission c = Some true →
  equals c (without_flag (as_data c)) strictOrder = true
  ∧ equals (with_flag c None) (as_data c) strictOrder = false.
Proof.
  intros Hwf Hflag. split.
  - rewrite equals_absent_argument by done.
    rewrite <- (with_options_same c) at 2.
    rewrite equals_same_header by done.
    destruct (wf_command_options c Hwf) as [Hnd Hall].
    by apply optionsEqual_refl.
  - by apply equals_absent_receiver.
Qed.

Lemma default_permission_argument_only_witness :
  equals role_command (without_flag (as_data role_command)) false = true
  ∧ equals (with_flag role_command None) (as_data role_command) false = false.
Proof.
  exact (default_permission_argument_only role_command false eq_refl eq_refl).
Defined.

(** C8 as stated fails when the receiver carries the absent flag: the
    routing command without its flag does not equal the same command with
    the flag [true], under either order policy. *)
Lemma absent_flag_on_receiver :
  cmd_defaultPermission role_command = Some true
  ∧ equals (with_flag role_command None) (as_data role_command) false = false
  ∧ equals (with_flag role_command None) (as_data role_command) true = false.
Proof. repeat split. Qed.

(** ** Option transcoder *)


(** C5: a well-formed wire option, transformed to the model shape
    ([received] true) and back to the wire shape ([received] false), is
    the option itself with the absent [required] properties filled with
    their defaults: the integer type code comes back through its symbolic
    name, the channel types come back through theirs, and
    [channel_types], [min_value], [max_value] come back under their wire
    names after travelling as [channelTypes], [minValue], [maxValue]. *)
Theorem transformOption_round_trip `{JsNumber} (w : OptionData) :
  wf_wire w = true →
  transformOption (transformOption w true) false = fill_required w.
Proof.
  induction w as [w IH] using OptionData_nested_ind. intros Hwf.
  destruct w as [type name description required autocomplete choices options
                   channelTypes channel_types minValue min_value maxValue
                   max_value].
  simpl in Hwf, IH. rewrite !andb_true_iff in Hwf.
  destruct Hwf as (((((Htype & Hct) & Hmin) & Hmax) & Hcts) & Hos).
  destruct channelTypes, minValue, maxValue; try done.
  destruct (valid_code_round type Htype) as (a & Ha & Ha').
  destruct type as [|n|]; try done.
  simpl in Ha, Ha'. simpl. rewrite !Ha. simpl. rewrite Ha'.
  unfold string_type. simpl. rewrite Ha.
  f_equal.
  - apply nullish_idem.
  - destruct options as [os|]; [|done]. f_equal.
    specialize (IH os eq_refl). rewrite List.Forall_forall in IH.
    rewrite forallb_forall in Hos.
    rewrite List.map_map. apply List.map_ext_in.
    intros o Ho. apply IH; [done|]. by apply Hos.
  - destruct channel_types as [ts|]; [|done]. simpl.
    by rewrite channel_types_round.
  - apply nullish_None_r.
  - apply nullish_None_r.
Qed.

Lemma transformOption_round_trip_witness :
  wf_wire wire_example = true
  ∧ transformOption (transformOption wire_example true) false
    = fill_required wire_example.
Proof.
  split; [reflexivity|].
  apply (transformOption_round_trip wire_example). reflexivity.
Defined.

(** The model shape of the example: symbolic types, model spelling. *)
Example transformOption_received :
  opt_options (transformOption wire_example true)
  = Some
      [{| opt_type := Name OptionType.CHANNEL; opt_name := "to";
          opt_description := Some "target channel";
          opt_required := Some true;
          opt_autocomplete := None; opt_choices := None;
          opt_options := None;
          opt_channelTypes :=
            Some [Name ChannelType.GUILD_TEXT; Name ChannelType.GUILD_VOICE];
          opt_channel_types := None;
          opt_minValue := None; opt_min_value := None;
          opt_maxValue := None; opt_max_value := None |};
       {| opt_type := Name OptionType.INTEGER; opt_name := "count";
          opt_description := Some "how many"; opt_required := Some false;
          opt_autocomplete := None;
          opt_choices :=
            Some [{| choice_name := "one"; choice_value := JNum (Int 1) |}];
          opt_options := None; opt_channelTypes := None;
          opt_channel_types := None;
          opt_minValue := Some (Int 1); opt_min_value := None;
          opt_maxValue := Some (Int 10); opt_max_value := None |}].
Proof. reflexivity. Qed.

(** * Further properties of the code *)

(** ** Option transcoder: directions and spellings *)

(** X1: transforming to the wire shape accepts wire data: a well-formed
    wire option goes through [transformOption(w, false)] unchanged, but for
    the absent [required] properties, which are filled with their
    defaults. *)
Theorem transformOption_accepts_wire `{JsNumber} (w : OptionData) :
  wf_wire w = true → transformOption w false = fill_required w.
Proof.
  induction w as [w IH] using OptionData_nested_ind. intros Hwf.
  destruct w as [type name description required autocomplete choices options
                   channelTypes channel_types minValue min_value maxValue
                   max_value].
  simpl in Hwf, IH. rewrite !andb_true_iff in Hwf.
  destruct Hwf as (((((Htype & Hct) & Hmin) & Hmax) & Hcts) & Hos).
  destruct channelTypes, minValue, maxValue; try done.
  destruct type as [|n|]; try done.
  simpl. f_equal.
  - destruct options as [os|]; [|done]. f_equal.
    specialize (IH os eq_refl). rewrite List.Forall_forall in IH.
    rewrite forallb_forall in Hos.
    apply List.map_ext_in. intros o Ho. apply IH; [done|]. by apply Hos.
Qed.

Lemma transformOption_accepts_wire_witness :
  wf_wire wire_example = true
  ∧ transformOption wire_example false = fill_required wire_example.
Proof.
  split; [reflexivity|].
  apply (transformOption_accepts_wire wire_example). reflexivity.
Defined.

(** X2: the result of [transformOption] is spelled for its direction at
    every level of the tree, whatever the input: the wire shape has no
    [channelTypes], [minValue] or [maxValue], the model shape has no
    [channel_types], [min_value] or [max_value]. *)
Theorem transformOption_spelling `{JsNumber} (o : OptionData) :
  only_wire_spelling (transformOption o false) = true
  ∧ only_model_spelling (transformOption o true) = true.
Proof.
  induction o as [o IH] using OptionData_nested_ind.
  destruct o as [type name description required autocomplete choices options
                   channelTypes channel_types minValue min_value maxValue
                   max_value].
  simpl in IH. simpl.
  destruct options as [os|]; [|done]. simpl.
  specialize (IH os eq_refl). rewrite List.Forall_forall in IH.
  split; apply forallb_forall; intros o' [o [<- Ho]]%in_map_iff;
    by apply IH.
Qed.

(** X3: the wire shape never carries a symbolic type: whatever the option
    tree, no type of [transformOption(o, false)] is a member name (it is an
    integer code, or [undefined] when the input type was unknown). *)
Theorem transformOption_wire_types `{JsNumber} (o : OptionData) :
  no_symbolic_type (transformOption o false) = true.
Proof.
  induction o as [o IH] using OptionData_nested_ind.
  destruct o as [type name description required autocomplete choices options
                   channelTypes channel_types minValue min_value maxValue
                   max_value].
  simpl in IH. simpl. apply andb_true_iff. split.
  - destruct type as [a|n|]; done.
  - destruct options as [os|]; [|done].
    specialize (IH os eq_refl). rewrite List.Forall_forall in IH.
    apply forallb_forall. intros o' [o [<- Ho]]%in_map_iff. by apply IH.
Qed.

Section ModelRoundTrip.
Context `{JsNumber}.

Lemma channel_types_model_round (ts : list (tag ChannelType.t)) :
  forallb (λ t, negb (is_code t)) ts = true →
  List.map enum_get
    (List.map (λ type, if is_name type then enum_get type else type) ts) = ts.
Proof.
  induction ts as [|t ts IH]; simpl; [done|].
  intros [Ht Hts]%andb_true_iff. rewrite IH by done. f_equal.
  destruct t as [c|n|]; try done. by destruct c.
Qed.

End ModelRoundTrip.

(** X4: the round trip from the model side: a well-formed option of a
    command, transformed to the wire shape and received back, is the
    option itself. *)
Theorem transformOption_model_round_trip `{JsNumber} (m : OptionData) :
  wf_option m = true →
  transformOption (transformOption m false) true = m.
Proof.
  induction m as [m IH] using OptionData_nested_ind. intros Hwf.
  destruct m as [type name description required autocomplete choices options
                   channelTypes channel_types minValue min_value maxValue
                   max_value].
  simpl in Hwf, IH. rewrite !andb_true_iff in Hwf.
  destruct Hwf as (((((((((Htype & Hreq) & Hcs) & Hts) & Hsnake) & Hmin)
                       & Hmax) & Hbmin) & Hbmax) & Hos).
  destruct type as [a| |]; try done.
  destruct channel_types, min_value, max_value; try done.
  pose proof (of_code_code a) as Ha. simpl in Ha.
  simpl. rewrite !Ha. unfold string_type. simpl. rewrite !Ha. simpl.
  f_equal.
  - destruct required as [r|]; [done|]. simpl in *.
    unfold required_default. by rewrite Hreq.
  - destruct options as [os|]; [|done]. f_equal.
    apply andb_true_iff in Hos as [_ Hos].
    specialize (IH os eq_refl). rewrite List.Forall_forall in IH.
    rewrite forallb_forall in Hos.
    rewrite List.map_map. rewrite <- (List.map_id os) at 2.
    apply List.map_ext_in. intros o Ho. apply IH; [done|]. by apply Hos.
  - destruct channelTypes as [ts|]; [|done]. simpl.
    by rewrite channel_types_model_round.
  - by destruct minValue.
  - by destruct maxValue.
Qed.

Lemma transformOption_model_round_trip_witness :
  wf_option model_example = true
  ∧ transformOption (transformOption model_example false) true = model_example.
Proof.
  split; [reflexivity|].
  apply (transformOption_model_round_trip model_example). reflexivity.
Defined.

(** ** Schema equality engine: the shape of the candidate *)

Section CandidateShape.
Context `{JsNumber}.

Lemma every_from_ext {A} (f g : A → nat → bool) (i : nat) (l : list A) :
  (∀ x j, f x j = g x j) → every_from f i l = every_from g i l.
Proof.
  intros Hfg. revert i. induction l as [|x l IH]; intros i; simpl; [done|].
  by rewrite Hfg, IH.
Qed.

Lemma forallb_ext_in {A} (f g : A → bool) (l : list A) :
  (∀ x, In x l → f x = g x) → forallb f l = forallb g l.
Proof.
  induction l as [|x l IH]; intros Hfg; simpl; [done|].
  rewrite (Hfg x) by by left. rewrite IH; [done|].
  intros y Hy. apply Hfg. by right.
Qed.

(** A value of a [Map] built from entries is the value of an entry. *)
Lemma js_Map_lookup_elem {V} (entries : list (string * V)) k v :
  js_Map entries !! k = Some v → (k, v) ∈ entries.
Proof.
  unfold js_Map.
  assert (Hgen : ∀ m : gmap string V,
    foldl (λ m kv, <[kv.1 := kv.2]> m) m entries !! k = Some v →
    (k, v) ∈ entries ∨ m !! k = Some v).
  { induction entries as [|[k' v'] entries IH]; intros m Hm; [by right|].
    simpl in Hm. destruct (IH _ Hm) as [Hin|Hm'].
    - left. by right.
    - destruct (decide (k' = k)) as [->|Hne].
      + rewrite lookup_insert_eq in Hm'. injection Hm' as ->. left. by left.
      + rewrite lookup_insert_ne in Hm' by done. by right. }
  intros Hm. destruct (Hgen ∅ Hm) as [Hin|Hempty]; [done|].
  by rewrite lookup_empty in Hempty.
Qed.

(** Mapping the values of the entries, keys kept, maps the values of the
    [Map]. *)
Lemma js_Map_map_values {V} (key : V → string) (f : V → V) (l : list V) k :
  (∀ x, key (f x) = key x) →
  js_Map (List.map (λ x, (key x, x)) (List.map f l)) !! k
  = f <$> js_Map (List.map (λ x, (key x, x)) l) !! k.
Proof.
  intros Hkey. unfold js_Map.
  assert (Hgen : ∀ m : gmap string V,
    foldl (λ m kv, <[kv.1 := kv.2]> m) (f <$> m)
      (List.map (λ x, (key x, x)) (List.map f l))
    = f <$> foldl (λ m kv, <[kv.1 := kv.2]> m) m
              (List.map (λ x, (key x, x)) l)).
  { induction l as [|x l IH]; intros m; simpl; [done|].
    rewrite <- IH. by rewrite fmap_insert, Hkey. }
  specialize (Hgen ∅). rewrite fmap_empty in Hgen.
  by rewrite Hgen, lookup_fmap.
Qed.

Lemma channelTypes_of_codes (ts : list (tag ChannelType.t)) :
  forallb valid_code ts = true →
  List.map (λ type, if is_code type then enum_get type else type)
    (List.map enum_get ts)
  = List.map (λ type, if is_code type then enum_get type else type) ts.
Proof.
  induction ts as [|t ts IH]; simpl; [done|].
  intros [Ht Hts]%andb_true_iff. rewrite IH by done. f_equal.
  destruct (valid_code_round t Ht) as (a & Ha & _).
  destruct t as [|n|]; try done. by rewrite Ha.
Qed.

(** [_optionEquals] gives the same answer for a candidate in the wire
    shape and for its model shape. *)
Lemma _optionEquals_received_candidate (w : OptionData) :
  wf_wire w = true →
  ∀ existing strict,
    _optionEquals existing (transformOption w true) strict
    = _optionEquals existing w strict.
Proof.
  induction w as [w IH] using OptionData_nested_ind. intros Hwf e strict.
  rewrite !_optionEquals_unfold.
  destruct w as [type name description required autocomplete choices options
                   channelTypes channel_types minValue min_value maxValue
                   max_value].
  simpl in Hwf, IH. rewrite !andb_true_iff in Hwf.
  destruct Hwf as (((((Htype & Hct) & Hmin) & Hmax) & Hcts) & Hos).
  destruct channelTypes, minValue, maxValue; try done.
  destruct (valid_code_round type Htype) as (a & Ha & _).
  destruct type as [|n|]; try done. simpl in Ha.
  assert (Hdiff :
    properties_differ e
      (transformOption
         (mkOption (Code n) name description required autocomplete choices
            options None channel_types None min_value None max_value) true)
    = properties_differ e
        (mkOption (Code n) name description required autocomplete choices
           options None channel_types None min_value None max_value)).
  { assert (Hst : string_type (Code n : tag OptionType.t) = Name a)
      by (unfold string_type; simpl; by rewrite Ha).
    unfold properties_differ. simpl. rewrite !Ha. simpl. rewrite !Hst.
    rewrite nullish_idem, !nullish_None_r.
    replace (opt_length
               match options with
               | Some os => Some (List.map (λ o, transformOption o true) os)
               | None => None
               end) with (opt_length options)
      by (destruct options; simpl; by rewrite ?length_map).
    replace (opt_length (List.map enum_get <$> channel_types))
      with (opt_length channel_types)
      by (destruct channel_types; simpl; by rewrite ?length_map).
    done. }
  rewrite Hdiff. clear Hdiff. destruct (properties_differ e _); [done|].
  simpl. destruct (match opt_choices e with Some _ => _ | None => _ end);
    [done|].
  assert (Htypes :
    match opt_channelTypes e with
    | Some channelTypes =>
        negb (channelTypesIncluded channelTypes
                (default [] (nullish (List.map enum_get <$> channel_types) None)))
    | None => false
    end
    = match opt_channelTypes e with
      | Some channelTypes =>
          negb (channelTypesIncluded channelTypes
                  (default [] (nullish None channel_types)))
      | None => false
      end).
  { destruct (opt_channelTypes e) as [cts|]; [|done].
    destruct channel_types as [ts|]; [|done]. simpl.
    unfold channelTypesIncluded. by rewrite channelTypes_of_codes. }
  rewrite Htypes. clear Htypes.
  destruct (match opt_channelTypes e with
            | Some _ => _ | None => _ end); [done|].
  destruct (opt_options e) as [es|]; [|done].
  destruct options as [os|]; [|done]. simpl.
  specialize (IH os eq_refl). rewrite List.Forall_forall in IH.
  rewrite forallb_forall in Hos.
  unfold optionsEqual, optionsEqual_with. rewrite length_map.
  destruct (negb _); [done|]. destruct strict.
  - apply every_from_ext. intros x j.
    rewrite list_lookup_fmap. destruct (os !! j) as [o|] eqn:Ho; [|done].
    simpl. apply list_elem_of_lookup_2, list_elem_of_In in Ho. auto.
  - apply forallb_ext_in. intros x _.
    rewrite (js_Map_map_values opt_name (λ o, transformOption o true))
      by (intros; apply transformOption_name).
    destruct (js_Map _ !! opt_name x) as [o|] eqn:Ho; [|done]. simpl.
    apply js_Map_lookup_elem, list_elem_of_In, in_map_iff in Ho
      as (o' & [= _ ->] & Ho'). auto.
Qed.

Lemma optionsEqual_received_candidate (ws existing : list OptionData)
    (strict : bool) :
  forallb wf_wire ws = true →
  optionsEqual existing (List.map (λ o, transformOption o true) ws) strict
  = optionsEqual existing ws strict.
Proof.
  intros Hwf. rewrite forallb_forall in Hwf.
  unfold optionsEqual, optionsEqual_with. rewrite length_map.
  destruct (negb _); [done|]. destruct strict.
  - apply every_from_ext. intros x j.
    rewrite list_lookup_fmap. destruct (ws !! j) as [o|] eqn:Ho; [|done].
    simpl. apply list_elem_of_lookup_2, list_elem_of_In in Ho.
    by apply _optionEquals_received_candidate, Hwf.
  - apply forallb_ext_in. intros x _.
    rewrite (js_Map_map_values opt_name (λ o, transformOption o true))
      by (intros; apply transformOption_name).
    destruct (js_Map _ !! opt_name x) as [o|] eqn:Ho; [|done]. simpl.
    apply js_Map_lookup_elem, list_elem_of_In, in_map_iff in Ho
      as (o' & [= _ ->] & Ho').
    by apply _optionEquals_received_candidate, Hwf.
Qed.

End CandidateShape.

(** X5: [equals] gives the same answer for a candidate whose options are
    in the wire shape and for the candidate with these options in the
    model shape: the comparison does not depend on the spelling or the
    type coding of well-formed candidate options. *)
Theorem equals_candidate_shape `{JsNumber} (this : ApplicationCommand)
    (command : CommandData) (ws : list OptionData) (strictOrder : bool) :
  data_options command = Some ws →
  forallb wf_wire ws = true →
  equals this
    (with_data_options command
       (Some (List.map (λ o, transformOption o true) ws))) strictOrder
  = equals this command strictOrder.
Proof.
  intros Hopts Hwf. unfold equals. simpl. rewrite Hopts. simpl.
  rewrite length_map.
  by rewrite optionsEqual_received_candidate.
Qed.

Lemma equals_candidate_shape_witness :
  equals (construct api_example)
    (with_data_options (api_as_data api_example)
       (Some (List.map (λ o, transformOption o true) [wire_example]))) true
  = equals (construct api_example) (api_as_data api_example) true.
Proof.
  exact (equals_candidate_shape (construct api_example)
           (api_as_data api_example) [wire_example] true eq_refl eq_refl).
Defined.

(** X6: a command built by the constructor from well-formed data of the
    server equals that data, under either order policy: a command that was
    just fetched is never reported as different from what the server
    sent. *)
Theorem equals_server_data `{JsNumber} (data : APIApplicationCommand)
    (strictOrder : bool) :
  wf_api_command data = true →
  equals (construct data) (api_as_data data) strictOrder = true.
Proof.
  intros Hwf. pose proof (construct_wf data Hwf) as Hc.
  destruct (wf_command_options _ Hc) as [Hnd Hall].
  unfold wf_api_command in Hwf. rewrite !andb_true_iff in Hwf.
  destruct Hwf as [[Htype Hflag] Hos].
  unfold equals, api_as_data. simpl in *.
  rewrite !String.eqb_refl, andb_false_r. simpl.
  assert (Ht : tag_truthy (string_type (api_type data))
               && negb (tag_eqb (string_type (api_type data))
                          (enum_get (api_type data))) = false).
  { destruct (api_type data) as [|n|]; try done. unfold string_type. simpl.
    unfold tag_eqb. rewrite bool_decide_eq_true_2 by done.
    apply andb_false_r. }
  rewrite Ht.
  assert (Hlen : (default 0%nat (opt_length (api_options data))
                  =? length match api_options data with
                            | Some options =>
                                List.map (λ o, transformOption o true) options
                            | None => []
                            end)%nat = true).
  { destruct (api_options data); simpl; [|done].
    rewrite length_map. apply Nat.eqb_refl. }
  rewrite Hlen.
  destruct (api_default_permission data) as [flag|]; [|done]. simpl.
  rewrite eqb_reflx.
  destruct (api_description data) as [d|], (api_version data) as [v|];
    simpl; rewrite ?String.eqb_refl; simpl;
    (destruct (api_options data) as [ws|]; [|done];
     rewrite !andb_true_iff in Hos; destruct Hos as [[_ Hwire] _];
     rewrite <- optionsEqual_received_candidate by done;
     by apply optionsEqual_refl).
Qed.

Lemma equals_server_data_witness :
  wf_api_command api_example = true
  ∧ equals (construct api_example) (api_as_data api_example) true = true
  ∧ equals (construct api_example) (api_as_data api_example) false = true.
Proof.
  split; [reflexivity|].
  split; apply (equals_server_data api_example); reflexivity.
Defined.

(** ** Schema equality engine: channel-type filters *)

(** X7: the order of the candidate's channel types is never enforced:
    [_optionEquals] gives the same answer for a candidate and for the
    candidate with its channel types rearranged, also when the order of
    options and choices is enforced. *)
Theorem channel_types_order_ignored `{JsNumber} (existing option : OptionData)
    (types types' : list (tag ChannelType.t)) (enforceOptionOrder : bool) :
  types' ≡ₚ types →
  _optionEquals existing (with_channelTypes option types') enforceOptionOrder
  = _optionEquals existing (with_channelTypes option types) enforceOptionOrder.
Proof.
  intros Hperm. rewrite !_optionEquals_unfold.
  unfold properties_differ, with_channelTypes. simpl.
  rewrite (Permutation_length Hperm).
  destruct (_ || _); [done|].
  destruct (match opt_choices existing with Some _ => _ | None => _ end);
    [done|].
  assert (Hincl : ∀ cts,
    channelTypesIncluded cts types' = channelTypesIncluded cts types).
  { intros cts. unfold channelTypesIncluded.
    apply forallb_ext_in. intros t _. apply bool_decide_ext.
    rewrite !list_elem_of_In, !in_map_iff.
    split; intros (x & Hx & Hin); exists x; (split; [done|]);
      apply list_elem_of_In; apply list_elem_of_In in Hin;
      [by rewrite <- Hperm|by rewrite Hperm]. }
  destruct (opt_channelTypes existing) as [cts|]; [|done].
  by rewrite Hincl.
Qed.

Lemma channel_types_order_ignored_witness :
  _optionEquals
    (channel_option [Name ChannelType.GUILD_TEXT; Name ChannelType.GUILD_VOICE])
    (with_channelTypes (channel_option [])
       [Name ChannelType.GUILD_VOICE; Name ChannelType.GUILD_TEXT]) true
  = _optionEquals
      (channel_option [Name ChannelType.GUILD_TEXT; Name ChannelType.GUILD_VOICE])
      (with_channelTypes (channel_option [])
         [Name ChannelType.GUILD_TEXT; Name ChannelType.GUILD_VOICE]) true.
Proof.
  apply (channel_types_order_ignored
           (channel_option
              [Name ChannelType.GUILD_TEXT; Name ChannelType.GUILD_VOICE])
           (channel_option [])
           [Name ChannelType.GUILD_TEXT; Name ChannelType.GUILD_VOICE]
           [Name ChannelType.GUILD_VOICE; Name ChannelType.GUILD_TEXT] true).
  apply Permutation_swap.
Defined.

(** ** Chat-input encoder: tokens and entries *)

Section TokenFacts.
Context `{JsNumber}.

Lemma walk_past_options sc (extra : list JsVal) :
  forallb is_string extra = true → walk sc (Some []) extra = Normal [].
Proof.
  induction extra as [|tok extra IH]; simpl; [done|].
  intros [Htok Hextra]%andb_true_iff. destruct tok; try done. by apply IH.
Qed.

(** Tokens past the declared options do not change the walk. *)
Lemma walk_extra sc (os : list OptionData) (pre extra : list JsVal) :
  (length os ≤ length pre)%nat → forallb is_string extra = true →
  walk sc (Some os) (pre ++ extra) = walk sc (Some os) pre.
Proof.
  intros Hlen Hextra. revert os Hlen.
  induction pre as [|tok pre IH]; intros os Hlen; simpl in *.
  - destruct os; simpl in *; [|lia]. by apply walk_past_options.
  - destruct tok; try done.
    destruct os as [|o os]; simpl in *; [apply IH; simpl; lia|].
    rewrite IH by lia. done.
Qed.

(** A token that is not a string makes the walk throw. *)
Lemma walk_non_string sc options (tokens : list JsVal) (tok : JsVal) :
  In tok tokens → is_string tok = false →
  ∃ e, walk sc options tokens = Throw e.
Proof.
  intros Hin Htok. revert options.
  induction tokens as [|t tokens IH]; intros options; [done|].
  destruct Hin as [->|Hin].
  - destruct tok; try done; simpl; eauto.
  - specialize (IH Hin). simpl. destruct t; eauto.
    destruct options as [[|o os]|]; [apply IH| |].
    + destruct (sc && _); [apply IH|].
      pose proof (make_data_total o s).
      destruct (make_data o s); eauto; [|done].
      destruct (IH (Some os)) as [e ->]. simpl. eauto.
    + destruct (negb _); [apply IH|eauto].
Qed.

Lemma make_data_header (o : OptionData) (value : string) (data : ValueEntry) :
  make_data o value = Normal data → entry_header data = option_header o.
Proof.
  unfold make_data. intros Hd.
  repeat case_match; simplify_eq; reflexivity.
Qed.

(** The entries of a walk are, in order, those of the options at the
    positions of the tokens that give an entry. *)
Lemma walk_headers sc (os : list OptionData) (tokens : list JsVal)
    (ds : list ValueEntry) :
  walk sc (Some os) tokens = Normal ds →
  List.map entry_header ds
  = List.map option_header (encoded_options sc os tokens).
Proof.
  unfold encoded_options. revert os ds.
  induction tokens as [|tok tokens IH]; intros os ds Hwalk.
  - simpl in Hwalk. injection Hwalk as <-. by destruct os.
  - simpl in Hwalk. destruct tok; try done.
    destruct os as [|o os].
    + by rewrite (IH [] ds Hwalk).
    + simpl. unfold gives_entry at 1. simpl.
      destruct (sc && negb (negb (String.eqb s ""))) eqn:Hskip; simpl.
      * by apply IH.
      * destruct (make_data o s) as [d| |] eqn:Hd; try done.
        destruct (walk sc (Some os) tokens) as [ds'| |] eqn:Hw; try done.
        simpl in Hwalk. injection Hwalk as <-. simpl.
        by rewrite (make_data_header _ _ _ Hd), (IH os ds').
Qed.

End TokenFacts.

(** X8: tokens beyond the declared options are ignored: when the option
    list in scope has no more positions than there are tokens to encode,
    appending string tokens to the token array does not change what the
    call completes with. *)
Theorem extra_tokens_ignored `{JsNumber} message client
    (this : ApplicationCommand) (tokens extra : list JsVal)
    (os : list OptionData) :
  scoped_options this tokens = Some os →
  (length os ≤ length (remaining this tokens))%nat →
  forallb is_string extra = true →
  (sendSlashCommand message client
     {| heap_options := tokens ++ extra; heap_this := this |}).1
  = (sendSlashCommand message client
       {| heap_options := tokens; heap_this := this |}).1.
Proof.
  intros Hscope Hlen Hextra. rewrite !sendSlashCommand_unfold. cbv zeta.
  simpl. destruct (negb _); [done|].
  unfold scoped_options, remaining in *.
  destruct (subCommandCheck this) eqn:Hsc.
  - destruct tokens as [|first rest].
    { unfold select in Hscope. simpl in Hscope.
      assert (Hnone : ∀ l : list OptionData,
                List.find (λ option, loose_eq_string JUndefined (opt_name option)) l
                = None) by (induction l; simpl; auto).
      by rewrite Hnone in Hscope. }
    simpl in *. unfold select in *. simpl in *.
    destruct (List.find _ (cmd_options this)) as [sc|]; [|done].
    simpl in *. unfold encode_tokens. rewrite Hscope. simpl.
    rewrite walk_extra by done.
    destruct (walk true (Some os) rest); try done.
    rewrite length_app.
    by rewrite !lookup_ge_None_2 by lia.
  - injection Hscope as <-. unfold encode_tokens. simpl.
    rewrite walk_extra by done.
    destruct (walk false _ tokens); try done.
    rewrite length_app.
    by rewrite !lookup_ge_None_2 by lia.
Qed.

Lemma extra_tokens_ignored_witness :
  (sendSlashCommand example_message example_client
     {| heap_options := [JStr "x"] ++ [JStr "y"; JStr "z"];
        heap_this := required_a_command |}).1
  = (sendSlashCommand example_message example_client
       {| heap_options := [JStr "x"]; heap_this := required_a_command |}).1.
Proof.
  apply (extra_tokens_ignored example_message example_client
           required_a_command [JStr "x"] [JStr "y"; JStr "z"]
           [string_option "a" (Some true)]).
  - reflexivity.
  - simpl. lia.
  - reflexivity.
Defined.

(** X9: a chat-input call never posts when one of the tokens to encode is
    not a string: it throws, whatever the options. *)
Theorem non_string_token_throws `{JsNumber} message client (h : Heap)
    (tok : JsVal) :
  tag_is (cmd_type (heap_this h)) CommandType.CHAT_INPUT = true →
  In tok (remaining (heap_this h) (heap_options h)) →
  is_string tok = false →
  ∃ e, (sendSlashCommand message client h).1 = Throw e.
Proof.
  intros Hkind Hin Htok. rewrite sendSlashCommand_unfold. cbv zeta.
  rewrite Hkind. simpl. unfold remaining in Hin.
  destruct (subCommandCheck (heap_this h)).
  - destruct (select _ _) as [sc|]; simpl; [|eauto].
    unfold encode_tokens.
    destruct (walk_non_string (bool_decide (is_Some (Some sc)))
                (opt_options sc) _ tok Hin Htok) as [e ->]. eauto.
  - simpl. unfold encode_tokens.
    destruct (walk_non_string (bool_decide (is_Some (@None OptionData)))
                (Some (cmd_options (heap_this h))) _ tok Hin Htok) as [e ->].
    eauto.
Qed.

Lemma non_string_token_throws_witness :
  ∃ e, (sendSlashCommand example_message example_client
          {| heap_options := [JStr "x"; JBool true];
             heap_this := required_a_command |}).1 = Throw e.
Proof.
  apply (non_string_token_throws example_message example_client
           {| heap_options := [JStr "x"; JBool true];
              heap_this := required_a_command |} (JBool true)).
  - reflexivity.
  - simpl. right. left. reflexivity.
  - reflexivity.
Defined.

Section NoOptions.
Context `{JsNumber}.

(** Against a subcommand without an [options] property the walk builds no
    entry. *)
Lemma walk_no_options sc (tokens : list JsVal) (ds : list ValueEntry) :
  walk sc None tokens = Normal ds → ds = [].
Proof.
  revert ds. induction tokens as [|t tokens IH]; intros ds Hw; simpl in Hw.
  - by injection Hw.
  - destruct t; try done. destruct (negb _); [by apply IH|done].
Qed.

End NoOptions.

(** X10: the entries of a posted body follow the options by position: when
    a chat-input call posts, the entries it built carry, in order, the
    type codes and names of the options in scope at the positions of the
    tokens (in the subcommand path: of the tokens that are not empty), one
    entry per such position. *)
Theorem entries_follow_positions `{JsNumber} message client (h : Heap)
    (body : InteractionBody) :
  (sendSlashCommand message client h).1 = Normal (Posted body) →
  ∃ ds,
    payload_options (body_data body)
    = Some (wrap_entries
              (if subCommandCheck (heap_this h)
               then select (heap_this h) (heap_options h) else None) ds)
    ∧ List.map entry_header ds
      = List.map option_header
          (encoded_options (subCommandCheck (heap_this h))
             (default [] (scoped_options (heap_this h) (heap_options h)))
             (remaining (heap_this h) (heap_options h))).
Proof.
  rewrite sendSlashCommand_unfold. cbv zeta.
  unfold scoped_options, remaining.
  destruct (negb _); [done|].
  destruct (subCommandCheck (heap_this h)) eqn:Hsc.
  - destruct (select _ _) as [sc|]; simpl; [|done].
    unfold encode_tokens. rewrite ?bool_decide_eq_true_2 by eauto.
    destruct (opt_options sc) as [os|] eqn:Hos.
    + destruct (walk true (Some os) _) as [ds| |] eqn:Hwalk; try done.
      destruct (is_required _); [done|]. intros [= <-].
      exists ds. split; [done|]. by apply walk_headers.
    + destruct (walk true None _) as [ds| |] eqn:Hwalk; try done.
      simpl. intros [= <-]. exists ds. split; [done|].
      by rewrite (walk_no_options _ _ _ Hwalk).
  - simpl. unfold encode_tokens.
    rewrite ?bool_decide_eq_false_2 by (intros [? ?]; done).
    destruct (walk false _ _) as [ds| |] eqn:Hwalk; try done.
    destruct (is_required _); [done|]. intros [= <-].
    exists ds. split; [done|]. by apply walk_headers.
Qed.

Lemma entries_follow_positions_witness :
  ∃ ds,
    Some [Node (Code 1) "add"
            [{| entry_type := Code 3; entry_name := "reason";
                entry_value := JStr "late" |}]]
    = Some (wrap_entries
              (select role_reason_command [JStr "add"; JStr ""; JStr "late"])
              ds)
    ∧ List.map entry_header ds
      = List.map option_header [string_option "reason" (Some false)].
Proof.
  exact (entries_follow_positions example_message example_client
           {| heap_options := [JStr "add"; JStr ""; JStr "late"];
              heap_this := role_reason_command |} _ eq_refl).
Defined.

Section PlainAndNested.
Context `{JsNumber}.

Lemma leaves_Leaf (ds : list ValueEntry) : leaves (List.map Leaf ds) = ds.
Proof.
  unfold leaves. induction ds as [|d ds IH]; simpl; [done|].
  f_equal. exact IH.
Qed.

(** The two branches of the loop build the same entries from tokens that
    are not empty. *)
Lemma walk_branches_agree (os : list OptionData) (tokens : list JsVal) :
  forallb (λ t, negb (is_string t) || truthy t) tokens = true →
  walk true (Some os) tokens = walk false (Some os) tokens.
Proof.
  revert os. induction tokens as [|tok tokens IH]; intros os Hne; [done|].
  simpl in Hne. apply andb_true_iff in Hne as [Htok Hne].
  simpl. destruct tok; try done. simpl in Htok.
  destruct os as [|o os]; [by apply IH|].
  rewrite Htok. simpl. by rewrite IH.
Qed.

End PlainAndNested.

(** X11: routing through a subcommand encodes its arguments as a plain
    command would: when the selected subcommand [sc] has the nested
    options [os], none of them a subcommand or group, and no remaining
    token is the empty string, the call completes as the plain call with
    the remaining tokens on the command whose options are [os], with the
    posted entries put inside the node of [sc]. *)
Theorem subcommand_arguments_as_plain `{JsNumber} message client
    (this : ApplicationCommand) (first : JsVal) (rest : list JsVal)
    (sc : OptionData) (os : list OptionData) :
  tag_is (cmd_type this) CommandType.CHAT_INPUT = true →
  subCommandCheck this = true →
  select this (first :: rest) = Some sc →
  opt_options sc = Some os →
  subCommandCheck (with_options this os) = false →
  forallb (λ t, negb (is_string t) || truthy t) rest = true →
  (sendSlashCommand message client
     {| heap_options := first :: rest; heap_this := this |}).1
  = nest this message client sc
      (sendSlashCommand message client
         {| heap_options := rest; heap_this := with_options this os |}).1.
Proof.
  intros Hkind Hsc Hsel Hos Hplain Hne.
  rewrite !sendSlashCommand_unfold. cbv zeta. simpl.
  rewrite Hkind, Hsc, Hsel, Hplain. simpl.
  unfold encode_tokens. rewrite Hos. simpl.
  rewrite walk_branches_agree by done.
  destruct (walk false (Some os) rest) as [ds| |]; try done.
  destruct (is_required _); [done|]. simpl.
  by rewrite leaves_Leaf.
Qed.

Lemma subcommand_arguments_as_plain_witness :
  (sendSlashCommand example_message example_client
     {| heap_options := [JStr "add"; JStr "12345"];
        heap_this := role_command |}).1
  = nest role_command example_message example_client
      (sub_command "add" (Some [string_option "role" (Some true)]))
      (sendSlashCommand example_message example_client
         {| heap_options := [JStr "12345"];
            heap_this :=
              with_options role_command [string_option "role" (Some true)] |}).1.
Proof.
  exact (subcommand_arguments_as_plain example_message example_client
           role_command (JStr "add") [JStr "12345"]
           (sub_command "add" (Some [string_option "role" (Some true)]))
           [string_option "role" (Some true)]
           eq_refl eq_refl eq_refl eq_refl eq_refl eq_refl).
Defined.

(** ** Schema equality engine: the order of the candidate's options *)

Section CandidateOrder.
Context `{JsNumber}.

(** With distinct keys, a [Map] does not depend on the order of its
    entries. *)
Lemma js_Map_perm {V} (entries entries' : list (string * V)) :
  NoDup entries.*1 → entries' ≡ₚ entries → js_Map entries' = js_Map entries.
Proof.
  intros Hnd Hperm. apply map_eq. intros k.
  assert (Hnd' : NoDup entries'.*1) by by rewrite Hperm.
  destruct (js_Map entries !! k) as [v|] eqn:Hk.
  - apply js_Map_lookup; [done|]. rewrite Hperm. by apply js_Map_lookup_elem.
  - destruct (js_Map entries' !! k) as [v|] eqn:Hk'; [|done].
    apply js_Map_lookup_elem in Hk'. rewrite Hperm in Hk'.
    by rewrite (js_Map_lookup _ _ _ Hnd Hk') in Hk.
Qed.

Lemma optionsEqual_candidate_perm (existing ws ws' : list OptionData) :
  NoDup (opt_name <$> ws) → ws' ≡ₚ ws →
  optionsEqual existing ws' false = optionsEqual existing ws false.
Proof.
  intros Hnd Hperm. unfold optionsEqual, optionsEqual_with.
  rewrite (Permutation_length Hperm). destruct (negb _); [done|].
  rewrite (js_Map_perm (List.map (λ option, (opt_name option, option)) ws)
             (List.map (λ option, (opt_name option, option)) ws')); [done| |].
  - by rewrite <- list_fmap_compose.
  - by apply fmap_Permutation.
Qed.

End CandidateOrder.

(** X12: without the order policy, [equals] does not depend on the order
    of the candidate's options: for every receiver, rearranging the
    uniquely named options of the candidate gives the same answer. *)
Theorem equals_candidate_order `{JsNumber} (this : ApplicationCommand)
    (command : CommandData) (ws ws' : list OptionData) :
  data_options command = Some ws →
  NoDup (opt_name <$> ws) →
  ws' ≡ₚ ws →
  equals this (with_data_options command (Some ws')) false
  = equals this command false.
Proof.
  intros Hopts Hnd Hperm. unfold equals. simpl. rewrite Hopts. simpl.
  rewrite (Permutation_length Hperm).
  by rewrite (optionsEqual_candidate_perm _ ws ws').
Qed.

(** The receiver with the options "role", "reason" finds the candidate
    with the options "reason", "role" equal, as it finds its own data: each
    option of the candidate is looked up by its name. *)
Lemma equals_candidate_order_witness :
  equals role_then_reason reason_then_role false = true
  ∧ equals role_then_reason (as_data role_then_reason) false = true.
Proof.
  split; [|reflexivity].
  refine (eq_trans
            (equals_candidate_order role_then_reason
               (as_data role_then_reason)
               (cmd_options role_then_reason)
               [string_option "reason" (Some false);
                string_option "role" (Some true)]
               eq_refl _ _)
            eq_refl).
  - exact (bool_decide_eq_true_1
             (NoDup (opt_name <$> cmd_options role_then_reason)) eq_refl).
  - apply Permutation_swap.
Defined.

(** ** The two encoders *)

(** X13: exactly one of the two encoders applies to a command: the
    chat-input encoder returns [false] if and only if the context-menu
    encoder does not. *)
Theorem encoders_complementary `{JsNumber} message client (h : Heap) :
  (sendSlashCommand message client h).1 = Normal ReturnedFalse
  ↔ sendContextMenu (heap_this h) message client ≠ ReturnedFalse.
Proof.
  rewrite sendSlashCommand_unfold. cbv zeta. unfold sendContextMenu.
  destruct (tag_is (cmd_type (heap_this h)) CommandType.CHAT_INPUT); simpl.
  - split; [|done]. intros Hfalse. exfalso. revert Hfalse.
    destruct (subCommandCheck _); [destruct (select _ _); [|done]|];
      simpl; unfold encode_tokens; destruct (walk _ _ _); try done;
      by destruct (is_required _).
  - split; done.
Qed.

(** X14: the posted bodies of the two encoders are told apart by their
    data: a body posted by the chat-input encoder has the type code 1, an
    option list and no [target_id]; a body posted by the context-menu
    encoder has a [target_id], no option list, and never the type
    code 1. *)
Theorem posted_bodies_distinct `{JsNumber} message client (h : Heap)
    (body : InteractionBody) :
  ((sendSlashCommand message client h).1 = Normal (Posted body) →
   payload_type (body_data body) = Code 1
   ∧ is_Some (payload_options (body_data body))
   ∧ payload_target_id (body_data body) = None)
  ∧ (sendContextMenu (heap_this h) message client = Posted body →
     payload_type (body_data body) ≠ Code 1
     ∧ payload_options (body_data body) = None
     ∧ is_Some (payload_target_id (body_data body))).
Proof.
  split.
  - rewrite sendSlashCommand_unfold. cbv zeta.
    destruct (tag_is (cmd_type (heap_this h)) CommandType.CHAT_INPUT) eqn:Hk;
      [|done]. simpl.
    assert (Htype : enum_get (cmd_type (heap_this h)) = Code 1).
    { destruct (cmd_type (heap_this h)) as [k| |]; try done. by destruct k. }
    destruct (subCommandCheck _); [destruct (select _ _); [|done]|];
      simpl; unfold encode_tokens; destruct (walk _ _ _); try done;
      destruct (is_required _); try done;
      intros [= <-]; simpl; rewrite Htype; eauto.
  - unfold sendContextMenu.
    destruct (tag_is (cmd_type (heap_this h)) CommandType.CHAT_INPUT) eqn:Hk;
      [done|].
    intros [= <-]. simpl. repeat split; [|eauto].
    destruct (cmd_type (heap_this h)) as [k|n|]; simpl; try done.
    + by destruct k.
    + by case_match.
Qed.

(** Choice resolution at the choice "five" of the example option. *)
Lemma make_data_choices_witness :
  ∃ data,
    make_data (choice_option OptionType.INTEGER "n" number_choices) "five"
    = Normal data
    ∧ entry_type data
      = enum_get (opt_type (choice_option OptionType.INTEGER "n" number_choices))
    ∧ entry_name data
      = opt_name (choice_option OptionType.INTEGER "n" number_choices)
    ∧ (truthy (JNum (Int 5)) = true → entry_value data = JNum (Int 5))
    ∧ (truthy (JNum (Int 5)) = false →
       entry_value data
       = coerce (opt_type (choice_option OptionType.INTEGER "n" number_choices))
           "five").
Proof.
  exact (make_data_choices (choice_option OptionType.INTEGER "n" number_choices)
           number_choices "five" eq_refl ltac:(discriminate)).
Defined.

(** ** The client user: edits guarded by the password *)

Module ClientUserFacts.
Import ClientUser.

Lemma password_to_send_given (client : Account) (password : option string) :
  negb (given password) && negb (given (acct_password client)) = false →
  given (password_to_send client password) = true.
Proof.
  unfold password_to_send.
  destruct (given (acct_password client)) eqn:Hc; [done|].
  by destruct (given password).
Qed.

(** A guarded setter that makes its call had a password at hand and
    sends [this.client.password ? this.client.password : password]. *)
Lemma run_called (client : Account) (s : Setter) (call : Call) :
  run client s = Called call →
  negb (given (supplied s)) && negb (given (acct_password client)) = false
  ∧ sent call = password_to_send client (supplied s).
Proof.
  destruct s; simpl;
    unfold setUsername, setDiscriminator, setEmail, setPassword,
      disableAccount, deleteAccount;
    repeat (match goal with
            | |- context [if ?b then _ else _] => destruct b eqn:?
            end; try done);
    by intros [= <-].
Qed.

(** X16: a guarded setter that makes its call sends a password that is
    not empty, and the password the client holds goes before the one
    supplied: the argument is used only when the client holds none. *)
Theorem sent_password (client : Account) (s : Setter) (call : Call) :
  run client s = Called call →
  given (sent call) = true
  ∧ sent call = (if given (acct_password client)
                 then acct_password client else supplied s).
Proof.
  intros Hrun. destruct (run_called client s call Hrun) as [Hguard ->].
  split; [by apply password_to_send_given|done].
Qed.

Lemma sent_password_witness :
  given (sent (Edit {| ed_username := Some "name"; ed_discriminator := None;
                       ed_email := None; ed_password := Some "old";
                       ed_new_password := None |})) = true
  ∧ sent (Edit {| ed_username := Some "name"; ed_discriminator := None;
                  ed_email := None; ed_password := Some "old";
                  ed_new_password := None |})
    = (if given (acct_password logged_account)
       then acct_password logged_account
       else supplied (SetUsername (Some "name") (Some "other"))).
Proof.
  exact (sent_password logged_account
           (SetUsername (Some "name") (Some "other")) _ eq_refl).
Defined.

(** X17: a guarded setter throws when neither the client holds a password
    nor one is supplied, and then makes no call. *)
Theorem no_password_raises (client : Account) (s : Setter) :
  given (acct_password client) = false →
  given (supplied s) = false →
  ∃ message, run client s = Raised message.
Proof.
  intros Hc Hs. destruct s; simpl in *;
    unfold setUsername, setDiscriminator, setEmail, setPassword,
      disableAccount, deleteAccount;
    rewrite Hc, Hs; simpl; try (destruct (negb _)); eauto.
Qed.

Lemma no_password_raises_witness :
  ∃ message,
    run fresh_account (SetEmail (Some "a@b.c") None) = Raised message.
Proof.
  exact (no_password_raises fresh_account (SetEmail (Some "a@b.c") None)
           eq_refl eq_refl).
Defined.

(** X18: [edit] remembers the password of the request: after a guarded
    edit has gone through, the client holds the password that was sent;
    the next guarded setter that makes a call sends that same password,
    whatever password it is given, and [setUsername] needs no password
    argument.  This holds after [setPassword] as well: what the client
    then holds and sends is the password of the request, not the new
    password. *)
Theorem password_remembered (client : Account) (s : Setter)
    (data : EditData) (newToken : option string) :
  run client s = Called (Edit data) →
  acct_password (edit client data newToken) = ed_password data
  ∧ (∀ next call,
       run (edit client data newToken) next = Called call →
       sent call = ed_password data)
  ∧ (∀ username,
       setUsername (edit client data newToken) username None
       = Called (Edit {| ed_username := username; ed_discriminator := None;
                         ed_email := None; ed_password := ed_password data;
                         ed_new_password := None |})).
Proof.
  intros Hs. destruct (run_called client s (Edit data) Hs) as [Hguard Hsent].
  simpl in Hsent.
  assert (Hgiven : given (ed_password data) = true)
    by (rewrite Hsent; by apply password_to_send_given).
  assert (Hstored : acct_password (edit client data newToken)
                    = ed_password data)
    by (unfold edit; simpl; by rewrite Hgiven).
  split; [done|]. split.
  - intros next call Hnext.
    destruct (run_called _ next call Hnext) as [_ ->].
    unfold password_to_send. by rewrite Hstored, Hgiven.
  - intros username. unfold setUsername, password_to_send.
    rewrite Hstored, Hgiven. simpl. by rewrite ?andb_false_r.
Qed.

Lemma password_remembered_witness :
  acct_password
    (edit fresh_account
       {| ed_username := None; ed_discriminator := None; ed_email := None;
          ed_password := Some "old"; ed_new_password := Some "new" |}
       (Some "t2"))
  = Some "old"
  ∧ (∀ next call,
       run (edit fresh_account
              {| ed_username := None; ed_discriminator := None;
                 ed_email := None; ed_password := Some "old";
                 ed_new_password := Some "new" |} (Some "t2")) next
       = Called call →
       sent call = Some "old")
  ∧ (∀ username,
       setUsername
         (edit fresh_account
            {| ed_username := None; ed_discriminator := None;
               ed_email := None; ed_password := Some "old";
               ed_new_password := Some "new" |} (Some "t2")) username None
       = Called (Edit {| ed_username := username; ed_discriminator := None;
                         ed_email := None; ed_password := Some "old";
                         ed_new_password := None |})).
Proof.
  exact (password_remembered fresh_account
           (SetPassword (Some "old") (Some "new")) _ (Some "t2") eq_refl).
Defined.

End ClientUserFacts.

(** ** Schema equality engine: the order of the candidate's choices *)

(** X19: without the order policy, [_optionEquals] does not depend on the
    order of the candidate's choices: rearranging uniquely named choices
    of the candidate gives the same answer, for every existing option. *)
Theorem choices_order_ignored `{JsNumber} (existing option : OptionData)
    (choices choices' : list Choice) :
  NoDup (choice_name <$> choices) →
  choices' ≡ₚ choices →
  _optionEquals existing (with_choices option choices') false
  = _optionEquals existing (with_choices option choices) false.
Proof.
  intros Hnd Hperm. rewrite !_optionEquals_unfold.
  unfold properties_differ, with_choices.
  cbn [opt_type opt_name opt_description opt_required opt_autocomplete
       opt_choices opt_options opt_channelTypes opt_channel_types
       opt_minValue opt_min_value opt_maxValue opt_max_value
       opt_length from_option].
  rewrite (Permutation_length Hperm).
  destruct (_ || _); [done|].
  assert (Hchoices : ∀ cs,
    choicesEqual cs choices' false = choicesEqual cs choices false).
  { intros cs. unfold choicesEqual.
    rewrite (js_Map_perm
               (List.map (λ choice, (choice_name choice, choice)) choices)
               (List.map (λ choice, (choice_name choice, choice)) choices'));
      [done| |].
    - by rewrite <- list_fmap_compose.
    - by apply fmap_Permutation. }
  destruct (opt_choices existing) as [cs|]; [|done].
  by rewrite Hchoices.
Qed.

Lemma choices_order_ignored_witness :
  _optionEquals (choice_option OptionType.INTEGER "n" number_choices)
    (with_choices (choice_option OptionType.INTEGER "n" []) swapped_choices)
    false
  = _optionEquals (choice_option OptionType.INTEGER "n" number_choices)
      (with_choices (choice_option OptionType.INTEGER "n" []) number_choices)
      false.
Proof.
  apply (choices_order_ignored
           (choice_option OptionType.INTEGER "n" number_choices)
           (choice_option OptionType.INTEGER "n" [])
           number_choices swapped_choices).
  - exact (bool_decide_eq_true_1
             (NoDup (choice_name <$> number_choices)) eq_refl).
  - apply Permutation_swap.
Defined.

(** ** Chat-input encoder: a subcommand without options *)

Section BareSubcommand.
Context `{JsNumber}.

Lemma walk_no_options_throws sc (tokens : list JsVal) (tok : JsVal) :
  In tok tokens → tok ≠ JStr "" → ∃ e, walk sc None tokens = Throw e.
Proof.
  intros Hin Hne. induction tokens as [|t tokens IH]; [done|].
  simpl. destruct t; eauto.
  destruct (String.eqb s "") eqn:Hs; simpl; [|eauto].
  apply String.eqb_eq in Hs. subst s.
  destruct Hin as [<-|Hin]; [done|]. by apply IH.
Qed.

End BareSubcommand.

(** X20: a subcommand without an [options] property takes no argument:
    when the selected subcommand has no nested option list, the call
    throws as soon as one of the remaining tokens is anything but the
    empty string. *)
Theorem bare_subcommand_takes_no_argument `{JsNumber} message client
    (h : Heap) (sc : OptionData) (tok : JsVal) :
  tag_is (cmd_type (heap_this h)) CommandType.CHAT_INPUT = true →
  subCommandCheck (heap_this h) = true →
  select (heap_this h) (heap_options h) = Some sc →
  opt_options sc = None →
  In tok (tail (heap_options h)) → tok ≠ JStr "" →
  ∃ e, (sendSlashCommand message client h).1 = Throw e.
Proof.
  intros Hkind Hsc Hsel Hos Hin Hne.
  rewrite sendSlashCommand_unfold. cbv zeta.
  rewrite Hkind, Hsc, Hsel. simpl. unfold encode_tokens. rewrite Hos.
  destruct (walk_no_options_throws (bool_decide (is_Some (Some sc)))
              _ tok Hin Hne) as [e ->]. eauto.
Qed.

Lemma bare_subcommand_takes_no_argument_witness :
  ∃ e, (sendSlashCommand example_message example_client
          {| heap_options := [JStr "ping"; JStr "now"];
             heap_this := ping_command |}).1 = Throw e.
Proof.
  apply (bare_subcommand_takes_no_argument example_message example_client
           {| heap_options := [JStr "ping"; JStr "now"];
              heap_this := ping_command |}
           (sub_command "ping" None) (JStr "now")).
  - reflexivity.
  - reflexivity.
  - reflexivity.
  - reflexivity.
  - simpl. left. reflexivity.
  - discriminate.
Defined.

(** ** From the data of the server to the posted entries *)

Section WireCodes.
Context `{JsNumber}.

Lemma encoded_options_plain (os : list OptionData) (tokens : list JsVal) :
  encoded_options false os tokens = take (length tokens) os.
Proof.
  unfold encoded_options, gives_entry. simpl.
  revert tokens. induction os as [|o os IH]; intros [|t tokens]; simpl;
    try done.
  by rewrite IH.
Qed.

Lemma received_header (w : OptionData) :
  valid_code (opt_type w) = true →
  option_header (transformOption w true) = wire_header w.
Proof.
  intros Hw. destruct (valid_code_round _ Hw) as (a & Ha & Ha').
  destruct w as [type name ? ? ? ? ? ? ? ? ? ? ?]. simpl in *.
  unfold option_header, wire_header. simpl.
  destruct type as [|n|]; try done. simpl in *. rewrite Ha. simpl.
  by rewrite Ha'.
Qed.

Lemma wf_wire_valid_code (w : OptionData) :
  wf_wire w = true → valid_code (opt_type w) = true.
Proof.
  destruct w; simpl. rewrite !andb_true_iff. tauto.
Qed.

End WireCodes.

(** X21: from the data of the server to the posted entries: for a command
    the constructor built from well-formed data, when a plain chat-input
    call posts, the entries carry, in order, the integer type codes and the
    names that the server declared for the options at the positions of the
    tokens. *)
Theorem posted_entries_carry_wire_codes `{JsNumber} message client
    (data : APIApplicationCommand) (tokens : list JsVal)
    (body : InteractionBody) :
  wf_api_command data = true →
  subCommandCheck (construct data) = false →
  (sendSlashCommand message client
     {| heap_options := tokens; heap_this := construct data |}).1
  = Normal (Posted body) →
  ∃ ds,
    payload_options (body_data body) = Some (List.map Leaf ds)
    ∧ List.map entry_header ds
      = List.map wire_header
          (take (length tokens) (default [] (api_options data))).
Proof.
  intros Hwf Hplain. rewrite sendSlashCommand_unfold. cbv zeta.
  cbn [heap_this heap_options]. rewrite Hplain.
  destruct (negb _); [done|].
  unfold encode_tokens.
  rewrite ?bool_decide_eq_false_2 by (intros [? ?]; done).
  destruct (walk false _ tokens) as [ds| |] eqn:Hwalk; try done.
  destruct (is_required _); [done|]. intros [= <-].
  exists ds. split; [done|].
  rewrite (walk_headers _ _ _ _ Hwalk), encoded_options_plain.
  unfold wf_api_command in Hwf. rewrite !andb_true_iff in Hwf.
  destruct Hwf as [_ Hos]. simpl.
  destruct (api_options data) as [ws|]; simpl; [|by rewrite !take_nil].
  rewrite !andb_true_iff in Hos. destruct Hos as [[_ Hwire] _].
  rewrite forallb_forall in Hwire.
  change (take (length tokens) (List.map (λ o, transformOption o true) ws))
    with (take (length tokens) ((λ o, transformOption o true) <$> ws)).
  rewrite <- fmap_take.
  change ((λ o, transformOption o true) <$> take (length tokens) ws)
    with (List.map (λ o, transformOption o true) (take (length tokens) ws)).
  rewrite List.map_map. apply List.map_ext_in. intros w Hw.
  apply received_header, wf_wire_valid_code, Hwire.
  apply list_elem_of_In. apply list_elem_of_In in Hw.
  by apply (subseteq_take (length tokens) ws).
Qed.

Lemma posted_entries_carry_wire_codes_witness :
  ∃ ds,
    Some [Leaf {| entry_type := Code 4; entry_name := "count";
                  entry_value := JNum (Int 3) |}]
    = Some (List.map Leaf ds)
    ∧ List.map entry_header ds
      = List.map wire_header
          (take (length [JStr "3"]) (default [] (api_options api_count_example))).
Proof.
  exact (posted_entries_carry_wire_codes example_message example_client
           api_count_example [JStr "3"] _ eq_refl eq_refl eq_refl).
Defined.
